(** * Validation of the Early Warning Index: a model of [validate_model.py]

    The script is one linear pass over a pandas data frame.  Here the frame
    is a list of rows, a float column is a list of [option Q] ([None] is the
    missing marker NaN), and a value computed by numpy is a [num]: an exact
    rational, NaN or an infinity.  Arithmetic on finite values is exact,
    except for Youden's J (line 98), where the comparison of two computed
    differences decides the result: there the rates and their difference are
    rounded to float64.  Exceptions are carried by the [res] monad. *)

From Stdlib Require Import String.
From Stdlib Require Import List Sorted Permutation Bool Arith ZArith QArith.
From Stdlib Require Import Qabs.
From Stdlib Require Import Lia Lqa.
Import ListNotations.
Open Scope Q_scope.

(** ** Exceptions *)

Inductive exn : Type :=
| ValueError (msg : string).

Inductive res (A : Type) : Type :=
| Ok (a : A)
| Raise (e : exn).
Arguments Ok {A} a.
Arguments Raise {A} e.

Definition bind {A B : Type} (m : res A) (k : A -> res B) : res B :=
  match m with
  | Ok a => k a
  | Raise e => Raise e
  end.

Notation "x <- m ;; k" := (bind m (fun x => k))
  (at level 61, m at next level, right associativity).
Notation "' p <- m ;; k" := (bind m (fun x => let p := x in k))
  (at level 61, p pattern, m at next level, right associativity).

Fixpoint mapM {A B : Type} (f : A -> res B) (l : list A) : res (list B) :=
  match l with
  | [] => Ok []
  | a :: l' => b <- f a ;; bs <- mapM f l' ;; Ok (b :: bs)
  end.

(** ** Numbers computed by numpy *)

Inductive num : Type :=
| Num (q : Q)
| NaN
| PInf
| NInf.

Definition Qltb (x y : Q) : bool := negb (Qle_bool y x).

(** [x < y], [x <= y], [x > y], [x >= y]: every comparison with NaN is
    false. *)
Definition num_lt (x y : num) : bool :=
  match x, y with
  | NaN, _ | _, NaN => false
  | _, NInf => false
  | NInf, _ => true
  | PInf, _ => false
  | Num _, PInf => true
  | Num a, Num b => Qltb a b
  end.

Definition num_le (x y : num) : bool :=
  match x, y with
  | NaN, _ | _, NaN => false
  | NInf, _ => true
  | _, PInf => true
  | PInf, _ => false
  | Num _, NInf => false
  | Num a, Num b => Qle_bool a b
  end.

Definition num_gt (x y : num) : bool := num_lt y x.
Definition num_ge (x y : num) : bool := num_le y x.

Definition num_neg (x : num) : num :=
  match x with
  | Num a => Num (- a)
  | NaN => NaN
  | PInf => NInf
  | NInf => PInf
  end.

Definition num_add (x y : num) : num :=
  match x, y with
  | NaN, _ | _, NaN => NaN
  | PInf, NInf | NInf, PInf => NaN
  | PInf, _ | _, PInf => PInf
  | NInf, _ | _, NInf => NInf
  | Num a, Num b => Num (a + b)
  end.

Definition num_sub (x y : num) : num := num_add x (num_neg y).

(** The sign of a number: [Lt], [Eq] or [Gt]; [None] for NaN. *)
Definition num_sign (x : num) : option comparison :=
  match x with
  | Num a => Some (0 ?= a)
  | NaN => None
  | PInf => Some Lt
  | NInf => Some Gt
  end.

Definition num_mul (x y : num) : num :=
  match x, y with
  | Num a, Num b => Num (a * b)
  | _, _ =>
      match num_sign x, num_sign y with
      | None, _ | _, None => NaN
      | Some Eq, _ | _, Some Eq => NaN
      | Some Lt, Some Lt | Some Gt, Some Gt => PInf
      | _, _ => NInf
      end
  end.

(** numpy's true division: [0/0] and [inf/inf] are NaN, [x/0] is an
    infinity with the sign of [x]; a warning is printed, nothing is raised. *)
Definition num_div (x y : num) : num :=
  match x, y with
  | NaN, _ | _, NaN => NaN
  | Num a, Num b =>
      if Qeq_bool b 0 then
        match 0 ?= a with
        | Eq => NaN
        | Lt => PInf
        | Gt => NInf
        end
      else Num (a / b)
  | Num _, _ => Num 0
  | _, Num b =>
      match num_sign x, (0 ?= b) with
      | Some Lt, Gt | Some Gt, (Lt | Eq) => NInf
      | _, _ => PInf
      end
  | _, _ => NaN
  end.

(** An integer count as a number. *)
Definition of_nat (n : nat) : num := Num (inject_Z (Z.of_nat n)).

(** Equality of computed numbers, up to the representation of a rational. *)
Definition num_eq (x y : num) : Prop :=
  match x, y with
  | Num a, Num b => a == b
  | NaN, NaN | PInf, PInf | NInf, NInf => True
  | _, _ => False
  end.

(** ** The data frame *)

(** One row of [validation_dataset_full.csv].  The outcome flag is 0 or 1;
    the priority class is an integer code or missing. *)
Record row : Type := mkRow {
  ewi : option Q;
  cattle_convergence : option Q;
  conflict_risk : option Q;
  resource_stress : option Q;
  access_constraints : option Q;
  water_score : option Q;
  forage_score : option Q;
  conflict_occurred : bool;
  priority_class : option Z
}.

Definition DataFrame : Type := list row.

(** Names of the score columns, and [df[col]] for one row. *)
Inductive column : Type :=
| col_ewi
| col_cattle_convergence
| col_conflict_risk
| col_resource_stress
| col_access_constraints
| col_water_score
| col_forage_score.

Definition cell (c : column) (r : row) : option Q :=
  match c with
  | col_ewi => ewi r
  | col_cattle_convergence => cattle_convergence r
  | col_conflict_risk => conflict_risk r
  | col_resource_stress => resource_stress r
  | col_access_constraints => access_constraints r
  | col_water_score => water_score r
  | col_forage_score => forage_score r
  end.

Definition get_col (c : column) (df : DataFrame) : list (option Q) :=
  map (cell c) df.

Definition set_ewi (r : row) (v : option Q) : row :=
  mkRow v (cattle_convergence r) (conflict_risk r) (resource_stress r)
        (access_constraints r) (water_score r) (forage_score r)
        (conflict_occurred r) (priority_class r).

(** ** Loading: filling missing EWI values (lines 31-45) *)

Definition component_cols_for_ewi : list column :=
  [ col_cattle_convergence; col_conflict_risk; col_resource_stress;
    col_access_constraints; col_water_score; col_forage_score ].

Definition isna {A : Type} (x : option A) : bool :=
  match x with
  | None => true
  | Some _ => false
  end.

Definition notna {A : Type} (x : option A) : bool := negb (isna x).

(** [Series.fillna(other)], cell by cell. *)
Definition fillna (x other : option Q) : option Q :=
  match x with
  | Some _ => x
  | None => other
  end.

(** Sum and count of the cells that are present, accumulated left to
    right. *)
Definition nansum (l : list (option Q)) : Q :=
  fold_left (fun acc x => match x with Some v => acc + v | None => acc end)
            l 0.

Definition count (l : list (option Q)) : nat :=
  fold_left (fun n x => if notna x then S n else n) l 0%nat.

(** [mean(skipna=True)]: NaN when no cell is present. *)
Definition mean_skipna (l : list (option Q)) : option Q :=
  match count l with
  | O => None
  | S _ as k => Some (nansum l / inject_Z (Z.of_nat k))
  end.

(** [df[cols].mean(axis=1, skipna=True)] for one row. *)
Definition row_mean (cols : list column) (r : row) : option Q :=
  mean_skipna (map (fun c => cell c r) cols).

Definition isna_sum (l : list (option Q)) : nat :=
  length (filter isna l).

Definition impute (df : DataFrame) : DataFrame :=
  let missing_ewi_before := isna_sum (get_col col_ewi df) in
  if (0 <? missing_ewi_before)%nat then
    map (fun r => set_ewi r (fillna (ewi r) (row_mean component_cols_for_ewi r)))
        df
  else df.

(** The line printed by the loader: [Some (filled, missing_before)] when
    the frame had a missing EWI, nothing otherwise. *)
Definition impute_report (df : DataFrame) : option (nat * nat) :=
  let missing_ewi_before := isna_sum (get_col col_ewi df) in
  if (0 <? missing_ewi_before)%nat then
    let missing_ewi_after := isna_sum (get_col col_ewi (impute df)) in
    Some ((missing_ewi_before - missing_ewi_after)%nat, missing_ewi_before)
  else None.

Definition outcomes (df : DataFrame) : list bool := map conflict_occurred df.

(** ** Array routines of numpy *)

(** A float cell as a number: the missing marker is NaN. *)
Definition to_num (x : option Q) : num :=
  match x with
  | Some v => Num v
  | None => NaN
  end.

Definition is_nan (x : num) : bool :=
  match x with
  | NaN => true
  | _ => false
  end.

(** [arr[idxs]] *)
Definition take {A : Type} (d : A) (arr : list A) (idxs : list nat) : list A :=
  map (fun i => nth i arr d) idxs.

(** [np.where(mask)[0]]: the positions at which the mask holds. *)
Definition np_where (mask : list bool) : list nat :=
  map fst (filter snd (combine (seq 0 (length mask)) mask)).

Fixpoint np_diff_Q (l : list Q) : list Q :=
  match l with
  | a :: ((b :: _) as l') => (b - a) :: np_diff_Q l'
  | _ => []
  end.

Fixpoint np_diff (l : list Z) : list Z :=
  match l with
  | a :: ((b :: _) as l') => (b - a)%Z :: np_diff l'
  | _ => []
  end.

Fixpoint cumsum_from (acc : Z) (l : list Z) : list Z :=
  match l with
  | [] => []
  | x :: l' => (acc + x)%Z :: cumsum_from (acc + x)%Z l'
  end.

Definition np_cumsum (l : list Z) : list Z := cumsum_from 0%Z l.

Fixpoint map2 {A B C : Type} (f : A -> B -> C) (l : list A) (m : list B)
  : list C :=
  match l, m with
  | a :: l', b :: m' => f a b :: map2 f l' m'
  | _, _ => []
  end.

(** Modelled from the spec: [np.argmax] is numpy's routine, absent from
    the sources; section 4.2 (operation 3) takes the first occurrence of the
    maximum in the order of the array.  This is numpy's scan over floats: a
    later element replaces the running maximum when it is not [<=] it, and
    the scan stops at the first NaN.  [mp] is the running maximum, found at [max_ind]; [i] is the
    position of the head of [l]. *)
Fixpoint argmax_scan (mp : num) (max_ind i : nat) (l : list num) : nat :=
  match l with
  | [] => max_ind
  | x :: l' =>
      if negb (num_le x mp) then
        if is_nan x then i else argmax_scan x i (S i) l'
      else argmax_scan mp max_ind (S i) l'
  end.

Definition np_argmax (l : list num) : res nat :=
  match l with
  | [] => Raise (ValueError "attempt to get argmax of an empty sequence")
  | x :: l' => Ok (if is_nan x then O else argmax_scan x 0 1 l')
  end.

(** ** Routines of scikit-learn

    [sklearn.metrics] is a library the script imports: [confusion_matrix],
    [roc_curve] and [roc_auc_score] are not part of [validate_model.py].
    They are given here for two-class labels and unit sample weights, after
    the specification (section 4.2) and the library's algorithms. *)

(** The sorted distinct labels that occur in either array. *)
Definition unique_labels (y_true y_pred : list bool) : list bool :=
  filter (fun b => existsb (Bool.eqb b) (y_true ++ y_pred)) [false; true].

Definition count_pairs (a b : bool) (y_true y_pred : list bool) : nat :=
  length
    (filter (fun p => Bool.eqb (fst p) a && Bool.eqb (snd p) b)
            (combine y_true y_pred)).

(** [confusion_matrix]: entry [i][j] counts the rows whose true label is
    the [i]-th label and whose predicted label is the [j]-th; with both
    labels present the rows are (TN, FP) and (FN, TP). *)
Definition confusion_matrix (y_true y_pred : list bool) : list (list nat) :=
  let labels := unique_labels y_true y_pred in
  map (fun a => map (fun b => count_pairs a b y_true y_pred) labels) labels.

Definition ravel {A : Type} (m : list (list A)) : list A := concat m.

(** [tn, fp, fn, tp = ...]: unpacking needs exactly four values. *)
Definition unpack4 (l : list nat) : res (nat * nat * nat * nat) :=
  match l with
  | [a; b; c; d] => Ok (a, b, c, d)
  | _ =>
      if (length l <? 4)%nat
      then Raise (ValueError "not enough values to unpack (expected 4)")
      else Raise (ValueError "too many values to unpack (expected 4)")
  end.

(** Input validation of a score array: it must be non-empty and hold no
    NaN. *)
Fixpoint all_present (l : list (option Q)) : option (list Q) :=
  match l with
  | [] => Some []
  | Some v :: l' =>
      match all_present l' with
      | Some vs => Some (v :: vs)
      | None => None
      end
  | None :: _ => None
  end.

Definition check_array (y_score : list (option Q)) : res (list Q) :=
  match y_score with
  | [] => Raise (ValueError "Found array with 0 sample(s)")
  | _ =>
      match all_present y_score with
      | Some vs => Ok vs
      | None => Raise (ValueError "Input contains NaN.")
      end
  end.

(** A stable ascending sort by score (the library asks numpy for its
    mergesort; every stable sort returns the same list). *)
Fixpoint insert_sorted (x : Q * bool) (l : list (Q * bool)) : list (Q * bool) :=
  match l with
  | [] => [x]
  | y :: l' =>
      if Qle_bool (fst x) (fst y) then x :: l else y :: insert_sorted x l'
  end.

Definition stable_sort (l : list (Q * bool)) : list (Q * bool) :=
  fold_right insert_sorted [] l.

Definition nonzero (z : Z) : bool := negb (z =? 0)%Z.

(** [_binary_clf_curve]: rows in decreasing order of score; one point per
    distinct score, at the last row that carries it, with the numbers of
    positives [tps] and of negatives [fps] among the rows down to it. *)
Definition binary_clf_curve (y_true : list bool) (y_score : list Q)
  : list Z * list Z * list Q :=
  let desc := rev (stable_sort (combine y_score y_true)) in
  let y_score := map fst desc in
  let y_true := map (fun p : Q * bool => if snd p then 1%Z else 0%Z) desc in
  let distinct_value_indices :=
    np_where (map (fun d => negb (Qeq_bool d 0)) (np_diff_Q y_score)) in
  let threshold_idxs :=
    distinct_value_indices ++ [(length y_true - 1)%nat] in
  let tps := take 0%Z (np_cumsum y_true) threshold_idxs in
  let fps := map2 (fun i tp => (1 + Z.of_nat i - tp)%Z) threshold_idxs tps in
  (fps, tps, take 0 y_score threshold_idxs).

(** [fps / fps[-1]], or an array of NaN (with a warning) when the last count
    is not positive. *)
Definition rates (counts : list Z) : list num :=
  let total := last counts 0%Z in
  if (total <=? 0)%Z then map (fun _ => NaN) counts
  else map (fun c => num_div (Num (inject_Z c)) (Num (inject_Z total))) counts.

(** Modelled from the spec: [roc_curve] is scikit-learn's routine, absent
    from the sources; section 4.2 (operation 3) asks for the full curve as
    triples (FPR, TPR, threshold) ordered by decreasing threshold, as a
    standard ROC routine produces it.  This is the library's routine with
    [drop_intermediate=True]: the scores are validated; of more than two
    points only the first, the last and the corners are kept; then the point
    (0, 0) is put in front, with threshold infinity. *)
Definition roc_curve (y_true : list bool) (y_score : list (option Q))
  : res (list num * list num * list num) :=
  scores <- check_array y_score ;;
  let '(fps, tps, thresholds) := binary_clf_curve y_true scores in
  let optimal_idxs :=
    if (2 <? length fps)%nat then
      np_where (true :: map2 orb (map nonzero (np_diff (np_diff fps)))
                                 (map nonzero (np_diff (np_diff tps)))
                     ++ [true])
    else seq 0 (length fps) in
  let fps := take 0%Z fps optimal_idxs in
  let tps := take 0%Z tps optimal_idxs in
  let thresholds := take 0 thresholds optimal_idxs in
  let tps := 0%Z :: tps in
  let fps := 0%Z :: fps in
  let thresholds := PInf :: map Num thresholds in
  Ok (rates fps, rates tps, thresholds).

(** [auc(x, y)]: the trapezoidal rule. *)
Fixpoint auc (x y : list num) : num :=
  match x, y with
  | x0 :: ((x1 :: _) as x'), y0 :: ((y1 :: _) as y') =>
      num_add (num_div (num_mul (num_sub x1 x0) (num_add y0 y1)) (Num 2))
              (auc x' y')
  | _, _ => Num 0
  end.

Definition both_classes (y_true : list bool) : bool :=
  existsb (fun b => b) y_true && existsb negb y_true.

(** Modelled from the spec: [roc_auc_score] is scikit-learn's routine,
    absent from the sources; sections 4.2 (operation 1) and 7 say that the
    AUC is undefined for outcomes of a single class and that this is
    reported as an error, not defaulted.  As in the library, the arrays are
    validated first, labels of a single class are then refused, and the
    score is the area under [roc_curve]. *)
Definition roc_auc_score (y_true : list bool) (y_score : list (option Q))
  : res num :=
  _ <- check_array y_score ;;
  if both_classes y_true then
    '(fpr, tpr, _) <- roc_curve y_true y_score ;;
    Ok (auc fpr tpr)
  else
    Raise (ValueError
      "Only one class present in y_true. ROC AUC score is not defined in that case.").

(** ** 1. Performance of the EWI (lines 59-100) *)

Definition interpretation (auc : num) : string :=
  if num_gt auc (Num 0.8) then "EXCELLENT - Strong predictive power"
  else if num_gt auc (Num 0.7) then "GOOD - Useful for operational decisions"
  else if num_gt auc (Num 0.6) then "FAIR - Better than random, needs improvement"
  else "POOR - Model needs major revision".

(** [(df['ewi'] >= threshold).astype(int)] *)
Definition predict (df : DataFrame) (threshold : num) : list bool :=
  map (fun s => num_ge (to_num s) threshold) (get_col col_ewi df).

Definition confusion_counts (df : DataFrame) (threshold : num)
  : res (nat * nat * nat * nat) :=
  unpack4 (ravel (confusion_matrix (outcomes df) (predict df threshold))).

(** One line of the threshold table. *)
Record metrics : Type := mkMetrics {
  m_threshold : Q;
  m_precision : num;
  m_recall : num;
  m_f1 : num;
  m_accuracy : num
}.

Definition sweep_thresholds : list Q := [0.4; 0.5; 0.6; 0.7].

Definition sweep_at (df : DataFrame) (threshold : Q) : res metrics :=
  '(tn, fp, fn, tp) <- confusion_counts df (Num threshold) ;;
  let precision :=
    if (0 <? tp + fp)%nat then num_div (of_nat tp) (of_nat (tp + fp))
    else Num 0 in
  let recall :=
    if (0 <? tp + fn)%nat then num_div (of_nat tp) (of_nat (tp + fn))
    else Num 0 in
  let f1 :=
    if num_gt (num_add precision recall) (Num 0) then
      num_div (num_mul (Num 2) (num_mul precision recall))
              (num_add precision recall)
    else Num 0 in
  let accuracy := num_div (of_nat (tp + tn)) (of_nat (tp + tn + fp + fn)) in
  Ok (mkMetrics threshold precision recall f1 accuracy).

Definition sweep (df : DataFrame) : res (list metrics) :=
  mapM (sweep_at df) sweep_thresholds.

(** *** Rounding to float64

    A finite float64 is a rational [s * 2^e] with [|s| < 2^53] and
    [e >= -1074]; every operation of numpy returns the float64 nearest to the
    exact result, ties going to the even significand, and an infinity past
    the largest float64. *)

(** The fraction [a / d] written over [2^e]: numerator and denominator of
    [a / (d * 2^e)]. *)
Definition scale (a d e : Z) : Z * Z :=
  if (0 <=? e)%Z then (a, (d * 2 ^ e)%Z) else ((a * 2 ^ (- e))%Z, d).

(** The exponent at which [a / d] has a significand of 53 bits, not below
    the least exponent. *)
Definition exponent (a d : Z) : Z :=
  let e1 := (Z.log2 a - Z.log2 d - 52)%Z in
  let '(n, m) := scale a d e1 in
  Z.max (if (2 ^ 52 * m <=? n)%Z then e1 else e1 - 1)%Z (-1074)%Z.

(** The integer nearest to [n / m], ties to even. *)
Definition round_even (n m : Z) : Z :=
  let q := (n / m)%Z in
  match (2 * (n mod m) ?= m)%Z with
  | Lt => q
  | Gt => (q + 1)%Z
  | Eq => if Z.even q then q else (q + 1)%Z
  end.

Definition round64_abs (a d : Z) : Q :=
  let e := exponent a d in
  let '(n, m) := scale a d e in
  let s := round_even n m in
  if (0 <=? e)%Z then inject_Z (s * 2 ^ e) else s # Z.to_pos (2 ^ (- e)).

(** The rational nearest to [q] among the float64 with no largest
    exponent. *)
Definition round64 (q : Q) : Q :=
  match Qnum q with
  | Z0 => 0
  | Zpos p => round64_abs (Zpos p) (Zpos (Qden q))
  | Zneg p => - round64_abs (Zpos p) (Zpos (Qden q))
  end.

Definition max_float : Q := inject_Z ((2 ^ 53 - 1) * 2 ^ 971).

(** The float64 that holds a computed number. *)
Definition f64 (x : num) : num :=
  match x with
  | Num q =>
      let r := round64 q in
      if Qle_bool (Qabs r) max_float then Num r
      else if Qle_bool 0 r then PInf else NInf
  | _ => x
  end.

(** [x - y] on float64. *)
Definition f64_sub (x y : num) : num := f64 (num_sub x y).

(** Youden's J along the curve, [tpr - fpr] on the float64 arrays of the
    curve, and the threshold at its [argmax].  The curve above keeps each
    rate as the exact quotient of two counts; the array of the library holds
    the float64 nearest to it, which is taken here before the
    subtraction. *)
Definition youden (fpr tpr : list num) : list num :=
  map2 (fun t f => f64_sub (f64 t) (f64 f)) tpr fpr.

Definition find_optimal_threshold (df : DataFrame) : res num :=
  '(fpr, tpr, thresholds) <- roc_curve (outcomes df) (get_col col_ewi df) ;;
  optimal_idx <- np_argmax (youden fpr tpr) ;;
  Ok (nth optimal_idx thresholds NaN).

(** ** 2. Component analysis (lines 110-125) *)

Definition components : list (string * column) :=
  [ ("Cattle Convergence"%string, col_cattle_convergence);
    ("Conflict Risk"%string, col_conflict_risk);
    ("Resource Stress"%string, col_resource_stress);
    ("Water Score"%string, col_water_score);
    ("Forage Score"%string, col_forage_score) ].

(** One line of the component table. *)
Record component_line : Type := mkComponentLine {
  c_name : string;
  c_auc : num;
  c_mean_conflict : num;
  c_mean_no_conflict : num
}.

Definition evaluate_component (df : DataFrame) (nc : string * column)
  : res component_line :=
  let '(name, col) := nc in
  auc_comp <- roc_auc_score (outcomes df) (get_col col df) ;;
  let mean_conflict :=
    to_num (mean_skipna (get_col col (filter conflict_occurred df))) in
  let mean_no_conflict :=
    to_num (mean_skipna
              (get_col col (filter (fun r => negb (conflict_occurred r)) df))) in
  Ok (mkComponentLine name auc_comp mean_conflict mean_no_conflict).

Definition component_analysis (df : DataFrame) : res (list component_line) :=
  mapM (evaluate_component df) components.

(** ** 3. Priority zones (lines 135-147) *)

Definition priority_map (k : Z) : option string :=
  match k with
  | 1%Z => Some "CRITICAL"%string
  | 2%Z => Some "HIGH ALERT"%string
  | 3%Z => Some "WATCH"%string
  | 4%Z => Some "STABLE"%string
  | _ => None
  end.

(** Equality of two cells as [Series.unique] sees it: NaN is one value. *)
Definition same_value (x y : option Z) : bool :=
  match x, y with
  | Some a, Some b => (a =? b)%Z
  | None, None => true
  | _, _ => false
  end.

(** [Series.unique()]: the distinct values in order of first appearance. *)
Fixpoint unique_from (seen l : list (option Z)) : list (option Z) :=
  match l with
  | [] => []
  | x :: l' =>
      if existsb (same_value x) seen then unique_from seen l'
      else x :: unique_from (x :: seen) l'
  end.

Definition unique (l : list (option Z)) : list (option Z) := unique_from [] l.

(** [x < y] on the values of the column: false whenever one side is NaN. *)
Definition priority_lt (x y : option Z) : bool :=
  match x, y with
  | Some a, Some b => (a <? b)%Z
  | _, _ => false
  end.

(** Python's [sorted] on a list of fewer than 64 elements, which uses only
    [<]: the leading run is found (and reversed when strictly descending),
    then every later element is put into the sorted prefix at the place found
    by bisection. *)
Section ListSort.
Context {A : Type} (lt : A -> A -> bool).

(** Length of the leading run after its first two elements were compared;
    [prev] is the last element of the run so far. *)
Fixpoint run_tail (descending : bool) (prev : A) (l : list A) : nat :=
  match l with
  | [] => O
  | x :: l' =>
      if Bool.eqb (lt x prev) descending then S (run_tail descending x l')
      else O
  end.

Definition count_run (l : list A) : nat * bool :=
  match l with
  | [] => (O, false)
  | [_] => (1%nat, false)
  | x0 :: x1 :: l' =>
      let descending := lt x1 x0 in
      (S (S (run_tail descending x1 l')), descending)
  end.

(** The loop [do .. while (l < r)] of the binary insertion. *)
Fixpoint bisect (fuel : nat) (pivot : A) (a : list A) (l r : nat) : nat :=
  match fuel with
  | O => l
  | S fuel' =>
      let p := (l + (r - l) / 2)%nat in
      let '(l1, r1) :=
        if lt pivot (nth p a pivot) then (l, p) else (S p, r) in
      if (l1 <? r1)%nat then bisect fuel' pivot a l1 r1 else l1
  end.

Definition binary_insert (a : list A) (pivot : A) : list A :=
  let l := bisect (length a) pivot a 0 (length a) in
  firstn l a ++ pivot :: skipn l a.

Definition py_sorted (l : list A) : list A :=
  match l with
  | [] | [_] => l
  | _ =>
      let '(n, descending) := count_run l in
      let run := firstn n l in
      fold_left binary_insert (skipn n l)
                (if descending then rev run else run)
  end.
End ListSort.

(** One line of the priority table. *)
Record zone_line : Type := mkZoneLine {
  z_label : string;
  z_total : nat;
  z_conflicts : nat;
  z_pct : num
}.

(** The values the loop reaches past its [continue], in the order of the
    iteration. *)
Definition zone_priorities (df : DataFrame) : list Z :=
  flat_map (fun priority =>
              match priority with
              | Some p => if (p =? 0)%Z then [] else [p]
              | None => []
              end)
           (py_sorted priority_lt (unique (map priority_class df))).

Definition zone_line_of (df : DataFrame) (priority : Z) : zone_line :=
  let subset := filter (fun r => same_value (priority_class r) (Some priority)) df in
  let conflicts := length (filter conflict_occurred subset) in
  let pct :=
    if (0 <? length subset)%nat then
      num_mul (num_div (of_nat conflicts) (of_nat (length subset))) (Num 100)
    else Num 0 in
  let label :=
    match priority_map priority with
    | Some s => s
    | None => "Unknown"%string
    end in
  mkZoneLine label (length subset) conflicts pct.

Definition zone_validation (df : DataFrame) : list zone_line :=
  map (zone_line_of df) (zone_priorities df).

(** ** 5. Summary and recommendation (lines 211-251) *)

Inductive verdict : Type := DEPLOY | PILOT | IMPROVE.

Definition recommend (auc recall : num) : verdict :=
  if num_gt auc (Num 0.75) && num_gt recall (Num 0.7) then DEPLOY
  else if num_gt auc (Num 0.65) then PILOT
  else IMPROVE.

Record summary : Type := mkSummary {
  s_confusion : nat * nat * nat * nat;
  s_precision : num;
  s_recall : num;
  s_f1 : num
}.

Definition summarize (df : DataFrame) (optimal_threshold : num) : res summary :=
  '(tn, fp, fn, tp) <- confusion_counts df optimal_threshold ;;
  let precision := num_div (of_nat tp) (of_nat (tp + fp)) in
  let recall := num_div (of_nat tp) (of_nat (tp + fn)) in
  let f1 :=
    num_div (num_mul (Num 2) (num_mul precision recall))
            (num_add precision recall) in
  Ok (mkSummary (tn, fp, fn, tp) precision recall f1).

(** ** The whole script

    Plotting (section 4) computes nothing that the report uses and is left
    out. *)
Record report : Type := mkReport {
  r_filled : option (nat * nat);
  r_auc : num;
  r_interpretation : string;
  r_sweep : list metrics;
  r_optimal_threshold : num;
  r_components : list component_line;
  r_zones : list zone_line;
  r_summary : summary;
  r_verdict : verdict
}.

Definition run (csv : DataFrame) : res report :=
  let df := impute csv in
  auc <- roc_auc_score (outcomes df) (get_col col_ewi df) ;;
  table <- sweep df ;;
  optimal_threshold <- find_optimal_threshold df ;;
  comps <- component_analysis df ;;
  let zones := zone_validation df in
  s <- summarize df optimal_threshold ;;
  Ok (mkReport (impute_report csv) auc (interpretation auc) table
               optimal_threshold comps zones s
               (recommend auc (s_recall s))).

(** ** Vocabulary of the specification *)

(** The values of the cells that are present. *)
Definition present (l : list (option Q)) : list Q :=
  flat_map (fun x => match x with Some v => [v] | None => [] end) l.

Definition Qsum (l : list Q) : Q := fold_right Qplus 0 l.

(** The six named components of a row. *)
Definition named_components (r : row) : list (option Q) :=
  [ cattle_convergence r; conflict_risk r; resource_stress r;
    access_constraints r; water_score r; forage_score r ].

(** The rows that have a composite score. *)
Definition nonmissing (df : DataFrame) : DataFrame :=
  filter (fun r => notna (ewi r)) df.

(** A row is classified positive at [t] when it has a score and the score
    is at least [t]. *)
Definition positive_at (t : Q) (r : row) : bool :=
  match ewi r with
  | Some s => Qle_bool t s
  | None => false
  end.

Definition count_rows (p : row -> bool) (df : DataFrame) : nat :=
  length (filter p df).

Definition TP (df : DataFrame) (t : Q) : nat :=
  count_rows (fun r => conflict_occurred r && positive_at t r) df.
Definition FP (df : DataFrame) (t : Q) : nat :=
  count_rows (fun r => negb (conflict_occurred r) && positive_at t r) df.
Definition FN (df : DataFrame) (t : Q) : nat :=
  count_rows (fun r => conflict_occurred r && negb (positive_at t r)) df.
Definition TN (df : DataFrame) (t : Q) : nat :=
  count_rows (fun r => negb (conflict_occurred r) && negb (positive_at t r)) df.

Definition Qnat (n : nat) : Q := inject_Z (Z.of_nat n).

(** The formulas of the specification: a ratio with denominator 0 is 0. *)
Definition ratio_or_zero (a b : Q) : Q :=
  if Qeq_bool b 0 then 0 else a / b.

Definition precision_spec (df : DataFrame) (t : Q) : Q :=
  ratio_or_zero (Qnat (TP df t)) (Qnat (TP df t + FP df t)).
Definition recall_spec (df : DataFrame) (t : Q) : Q :=
  ratio_or_zero (Qnat (TP df t)) (Qnat (TP df t + FN df t)).
Definition f1_spec (df : DataFrame) (t : Q) : Q :=
  ratio_or_zero (2 * precision_spec df t * recall_spec df t)
                (precision_spec df t + recall_spec df t).
Definition accuracy_spec (df : DataFrame) (t : Q) : Q :=
  Qnat (TP df t + TN df t) / Qnat (length df).

(** A line of the threshold table agrees with the formulas at [t]. *)
Definition line_agrees (df : DataFrame) (t : Q) (m : metrics) : Prop :=
  m_threshold m = t /\
  num_eq (m_precision m) (Num (precision_spec df t)) /\
  num_eq (m_recall m) (Num (recall_spec df t)) /\
  num_eq (m_f1 m) (Num (f1_spec df t)) /\
  num_eq (m_accuracy m) (Num (accuracy_spec df t)).

(** [x > y] as a proposition. *)
Definition exceeds (x : num) (y : Q) : Prop := num_gt x (Num y) = true.

(** A curve's thresholds go strictly down. *)
Definition descending (thresholds : list num) : Prop :=
  forall i j, (i < j < length thresholds)%nat ->
    num_lt (nth j thresholds NaN) (nth i thresholds NaN) = true.

(** Order of two rows by score. *)
Definition score_le (a b : Q * bool) : Prop := fst a <= fst b.

(** ** Sample frames *)

Definition sample (e : option Q) (c : option Q) (y : bool) (p : option Z)
  : row :=
  mkRow e c c c c c c y p.

(** A third row has neither a score nor any component. *)
Definition frame_residual : DataFrame :=
  [ sample (Some 0.6) (Some 0.6) true (Some 1%Z);
    sample (Some 0.4) (Some 0.4) false (Some 4%Z);
    sample None None true (Some 2%Z) ].

(** Two rows with the same score and different outcomes. *)
Definition frame_tied : DataFrame :=
  [ sample (Some 0.5) (Some 0.7) true (Some 1%Z);
    sample (Some 0.5) (Some 0.2) false (Some 4%Z) ].

(** The scenario of the threshold sweep: scores 0.6 and 0.4, outcomes 1
    and 0. *)
Definition frame_sweep : DataFrame :=
  [ sample (Some 0.6) (Some 0.6) true (Some 1%Z);
    sample (Some 0.4) (Some 0.4) false (Some 4%Z) ].

(** Scores 0.9, 0.8, 0.3, 0.2 with outcomes 1, 1, 0, 0. *)
Definition frame_separated : DataFrame :=
  [ sample (Some 0.9) (Some 0.9) true (Some 1%Z);
    sample (Some 0.8) (Some 0.8) true (Some 2%Z);
    sample (Some 0.3) (Some 0.3) false (Some 3%Z);
    sample (Some 0.2) (Some 0.2) false (Some 4%Z) ].

(** One row lacks the score and two of its components. *)
Definition frame_partial : DataFrame :=
  [ mkRow None (Some 0.2) None (Some 0.4) None (Some 0.6) (Some 0.8)
          true (Some 1%Z);
    sample (Some 0.3) (Some 0.3) false (Some 2%Z) ].

(** The priority column holds a missing value between 3 and 1. *)
Definition frame_zones : DataFrame :=
  [ sample (Some 0.9) (Some 0.9) true (Some 3%Z);
    sample (Some 0.8) (Some 0.8) true None;
    sample (Some 0.3) (Some 0.3) false (Some 1%Z) ].

(** Scores 0.9 to 0.4 with outcomes 1, 1, 0, 1, 0, 0: TPR - FPR is 2/3 at
    the thresholds 0.8 and 0.6. *)
Definition frame_rounding : DataFrame :=
  [ sample (Some 0.9) (Some 0.9) true (Some 1%Z);
    sample (Some 0.8) (Some 0.8) true (Some 1%Z);
    sample (Some 0.7) (Some 0.7) false (Some 2%Z);
    sample (Some 0.6) (Some 0.6) true (Some 2%Z);
    sample (Some 0.5) (Some 0.5) false (Some 3%Z);
    sample (Some 0.4) (Some 0.4) false (Some 4%Z) ].

(** Only positive outcomes. *)
Definition frame_all_conflict : DataFrame :=
  [ sample (Some 0.9) (Some 0.9) true (Some 1%Z);
    sample (Some 0.8) (Some 0.8) true (Some 2%Z) ].

(** ** Further vocabulary *)

(** A row has at least one of its six components. *)
Definition has_component (r : row) : bool :=
  existsb notna (named_components r).

(** A computed number is a rational between [lo] and [hi]. *)
Definition within (lo hi : Q) (x : num) : Prop :=
  exists q, x = Num q /\ lo <= q <= hi.

(** The verdicts in order of confidence. *)
Definition verdict_rank (v : verdict) : nat :=
  match v with
  | IMPROVE => 0
  | PILOT => 1
  | DEPLOY => 2
  end.

(** The integer code of a priority cell (0 for a missing one). *)
Definition priority_key (x : option Z) : Z :=
  match x with
  | Some z => z
  | None => 0%Z
  end.

(** The rows that carry a priority class other than 0. *)
Definition classified (r : row) : bool :=
  match priority_class r with
  | Some p => negb (p =? 0)%Z
  | None => false
  end.

(** Both labels occur among the outcomes and the predictions at [th]. *)
Definition both_labels (df : DataFrame) (th : num) : bool :=
  existsb negb (outcomes df ++ predict df th)
  && existsb (fun b => b) (outcomes df ++ predict df th).

(** The rows counted by outcome and by prediction at [th], in the order
    TN, FP, FN, TP. *)
Definition row_counts (df : DataFrame) (th : num) : nat * nat * nat * nat :=
  let pos := fun r => num_ge (to_num (ewi r)) th in
  (count_rows (fun r => negb (conflict_occurred r) && negb (pos r)) df,
   count_rows (fun r => negb (conflict_occurred r) && pos r) df,
   count_rows (fun r => conflict_occurred r && negb (pos r)) df,
   count_rows (fun r => conflict_occurred r && pos r) df).

(** The recall column of a threshold table does not go up. *)
Definition recall_falls (m m' : metrics) : Prop :=
  exists q q', m_recall m = Num q /\ m_recall m' = Num q' /\ q' <= q.

(** The five columns of the component table. *)
Definition evaluated_columns : list column := map snd components.

(** Both outcomes occur and none of the five evaluated columns has a
    missing cell. *)
Definition completes (csv : DataFrame) : bool :=
  both_classes (outcomes csv)
  && forallb (fun c => forallb notna (get_col c csv)) evaluated_columns.

(** * Properties *)

(** ** Imputation *)

Lemma nansum_from (l : list (option Q)) (acc : Q) :
  fold_left (fun a x => match x with Some v => a + v | None => a end) l acc
  == acc + Qsum (present l).
Proof.
  revert acc; induction l as [|[v|] l IH]; intros acc; simpl.
  - ring.
  - rewrite IH. ring.
  - apply IH.
Qed.

Lemma nansum_present (l : list (option Q)) : nansum l == Qsum (present l).
Proof. unfold nansum. rewrite nansum_from. ring. Qed.

Lemma count_from (l : list (option Q)) (n : nat) :
  fold_left (fun k x => if notna x then S k else k) l n
  = (n + length (present l))%nat.
Proof.
  revert n; induction l as [|[v|] l IH]; intros n; simpl.
  - lia.
  - rewrite IH. lia.
  - apply IH.
Qed.

Lemma count_present (l : list (option Q)) : count l = length (present l).
Proof. unfold count. now rewrite count_from. Qed.

Lemma mean_skipna_spec (l : list (option Q)) :
  match present l with
  | [] => mean_skipna l = None
  | _ :: _ =>
      exists v, mean_skipna l = Some v /\
                v == Qsum (present l) / Qnat (length (present l))
  end.
Proof.
  unfold mean_skipna. rewrite count_present.
  destruct (present l) as [|v vs] eqn:E; [reflexivity|].
  cbn [length]. eexists; split; [reflexivity|].
  rewrite nansum_present, E. reflexivity.
Qed.

Lemma row_mean_named (r : row) :
  row_mean component_cols_for_ewi r = mean_skipna (named_components r).
Proof. reflexivity. Qed.

Lemma isna_sum_pos (df : DataFrame) (r : row) :
  In r df -> ewi r = None -> (0 <? isna_sum (get_col col_ewi df))%nat = true.
Proof.
  intros Hin He. apply Nat.ltb_lt. unfold isna_sum, get_col.
  assert (Hin' : In (cell col_ewi r) (filter isna (map (cell col_ewi) df))).
  { apply filter_In; split; [now apply in_map|]. simpl. now rewrite He. }
  destruct (filter isna (map (cell col_ewi) df)); [destruct Hin'|simpl; lia].
Qed.

Lemma impute_rowwise (df : DataFrame) :
  impute df
  = map (fun r => set_ewi r (fillna (ewi r) (row_mean component_cols_for_ewi r)))
        df.
Proof.
  unfold impute.
  destruct (0 <? isna_sum (get_col col_ewi df))%nat eqn:E; [reflexivity|].
  apply Nat.ltb_ge in E.
  assert (Hall : forall r, In r df -> ewi r <> None).
  { intros r Hin He. pose proof (isna_sum_pos df r Hin He) as H.
    apply Nat.ltb_lt in H. lia. }
  clear E. induction df as [|r df IH]; [reflexivity|].
  simpl. rewrite <- IH by (intros r' Hr'; apply Hall; now right).
  f_equal. destruct r as [e a b c d f g y p]; simpl.
  destruct e as [v|]; [reflexivity|].
  exfalso. apply (Hall (mkRow None a b c d f g y p)); [now left|reflexivity].
Qed.

(** C3: a row whose composite score is missing and which has [k >= 1] of
    the six named components present receives their sum divided by [k]; a
    row with no component present keeps a missing score. *)
Theorem impute_fills_with_mean (df : DataFrame) (i : nat) (r : row) :
  nth_error df i = Some r ->
  ewi r = None ->
  exists r', nth_error (impute df) i = Some r' /\
    match present (named_components r) with
    | [] => ewi r' = None
    | (_ :: _) as vals =>
        exists v, ewi r' = Some v /\ v == Qsum vals / Qnat (length vals)
    end.
Proof.
  intros Hnth He. rewrite impute_rowwise.
  eexists; split.
  - rewrite nth_error_map, Hnth. reflexivity.
  - cbn [set_ewi ewi]. rewrite He. cbn [fillna].
    rewrite row_mean_named.
    pose proof (mean_skipna_spec (named_components r)) as Hm.
    destruct (present (named_components r)); exact Hm.
Qed.

Lemma impute_fills_with_mean_witness :
  exists r', nth_error (impute frame_partial) 0 = Some r' /\
    exists v, ewi r' = Some v /\ v == (0.2 + (0.4 + (0.6 + (0.8 + 0)))) / 4.
Proof.
  destruct (impute_fills_with_mean frame_partial 0
              (mkRow None (Some 0.2) None (Some 0.4) None (Some 0.6) (Some 0.8)
                     true (Some 1%Z)) eq_refl eq_refl) as [r' [H1 H2]].
  exists r'. split; [exact H1|]. exact H2.
Defined.

(** C9: imputation leaves the six component columns, the outcome column
    and the priority column as they were, keeps every row, and writes the
    composite score only where it was missing. *)
Theorem impute_frame (df : DataFrame) :
  length (impute df) = length df /\
  get_col col_cattle_convergence (impute df) = get_col col_cattle_convergence df /\
  get_col col_conflict_risk (impute df) = get_col col_conflict_risk df /\
  get_col col_resource_stress (impute df) = get_col col_resource_stress df /\
  get_col col_access_constraints (impute df) = get_col col_access_constraints df /\
  get_col col_water_score (impute df) = get_col col_water_score df /\
  get_col col_forage_score (impute df) = get_col col_forage_score df /\
  map conflict_occurred (impute df) = map conflict_occurred df /\
  map priority_class (impute df) = map priority_class df /\
  Forall2 (fun old new => old = None \/ new = old)
          (get_col col_ewi df) (get_col col_ewi (impute df)).
Proof.
  rewrite impute_rowwise. unfold get_col.
  rewrite length_map, !map_map.
  repeat split; try reflexivity.
  induction df as [|r df IH]; simpl; constructor; [|exact IH].
  destruct (ewi r); [right; reflexivity|left; reflexivity].
Qed.

(** ** Confusion counts *)

Lemma count_pairs_map {X : Type} (f g : X -> bool) (a b : bool) (l : list X) :
  count_pairs a b (map f l) (map g l)
  = length (filter (fun x => Bool.eqb (f x) a && Bool.eqb (g x) b) l).
Proof.
  unfold count_pairs. induction l as [|x l IH]; [reflexivity|].
  simpl. destruct (Bool.eqb (f x) a && Bool.eqb (g x) b); simpl; now rewrite IH.
Qed.

Lemma predict_rows (df : DataFrame) (th : num) :
  predict df th = map (fun r => num_ge (to_num (ewi r)) th) df.
Proof. unfold predict, get_col. now rewrite map_map. Qed.

Lemma predict_positive_at (t : Q) (r : row) :
  num_ge (to_num (ewi r)) (Num t) = positive_at t r.
Proof. unfold positive_at. now destruct (ewi r). Qed.

Lemma both_classes_labels (y_true y_pred : list bool) :
  both_classes y_true = true -> unique_labels y_true y_pred = [false; true].
Proof.
  unfold both_classes, unique_labels. intros H.
  apply andb_true_iff in H as [Ht Hf].
  apply existsb_exists in Ht as [x [Hx Hxt]].
  apply existsb_exists in Hf as [z [Hz Hzf]].
  destruct x; [|discriminate]. destruct z; [discriminate|].
  simpl.
  assert (E1 : existsb (Bool.eqb false) (y_true ++ y_pred) = true).
  { apply existsb_exists. exists false. split; [|reflexivity].
    apply in_or_app; now left. }
  assert (E2 : existsb (Bool.eqb true) (y_true ++ y_pred) = true).
  { apply existsb_exists. exists true. split; [|reflexivity].
    apply in_or_app; now left. }
  now rewrite E1, E2.
Qed.

Lemma filter_ext_length {X : Type} (p q : X -> bool) (l : list X) :
  (forall x, p x = q x) -> length (filter p l) = length (filter q l).
Proof. intros H. now rewrite (filter_ext p q H). Qed.

(** With both outcomes present the matrix is 2 by 2, and its four entries
    count the rows by outcome and prediction. *)
Lemma confusion_counts_rows (df : DataFrame) (th : num) :
  both_classes (outcomes df) = true ->
  let pos := fun r => num_ge (to_num (ewi r)) th in
  confusion_counts df th
  = Ok (count_rows (fun r => negb (conflict_occurred r) && negb (pos r)) df,
        count_rows (fun r => negb (conflict_occurred r) && pos r) df,
        count_rows (fun r => conflict_occurred r && negb (pos r)) df,
        count_rows (fun r => conflict_occurred r && pos r) df).
Proof.
  intros Hb pos. unfold confusion_counts, confusion_matrix.
  rewrite (both_classes_labels _ _ Hb). rewrite predict_rows.
  unfold outcomes. cbn [map ravel concat app unpack4].
  rewrite !count_pairs_map. unfold count_rows. fold pos.
  apply f_equal.
  apply f_equal2; [apply f_equal2; [apply f_equal2|]|];
    apply filter_ext_length; intros r; unfold pos;
    destruct (conflict_occurred r), (num_ge (to_num (ewi r)) th); reflexivity.
Qed.

Lemma confusion_counts_spec (df : DataFrame) (t : Q) :
  both_classes (outcomes df) = true ->
  confusion_counts df (Num t) = Ok (TN df t, FP df t, FN df t, TP df t).
Proof.
  intros Hb. rewrite (confusion_counts_rows df (Num t) Hb).
  unfold TN, FP, FN, TP, count_rows.
  apply f_equal.
  apply f_equal2; [apply f_equal2; [apply f_equal2|]|];
    apply filter_ext_length; intros r;
    now rewrite predict_positive_at.
Qed.

Lemma counts_partition (df : DataFrame) (p : row -> bool) :
  (count_rows (fun r => conflict_occurred r && p r) df
   + count_rows (fun r => negb (conflict_occurred r) && negb (p r)) df
   + count_rows (fun r => negb (conflict_occurred r) && p r) df
   + count_rows (fun r => conflict_occurred r && negb (p r)) df)%nat
  = length df.
Proof.
  unfold count_rows. induction df as [|r df IH]; [reflexivity|].
  simpl. destruct (conflict_occurred r), (p r); simpl; lia.
Qed.

Lemma both_classes_nonempty (y : list bool) :
  both_classes y = true -> (0 < length y)%nat.
Proof. destruct y; [discriminate|simpl; lia]. Qed.

(** ** The threshold sweep *)

Lemma Qnat_eq_zero (n : nat) : Qeq_bool (Qnat n) 0 = (n =? 0)%nat.
Proof.
  unfold Qnat, Qeq_bool, inject_Z. simpl.
  destruct n; [reflexivity|].
  rewrite Z.mul_1_r. apply Z.eqb_neq. lia.
Qed.

Lemma Qnat_nonneg (n : nat) : 0 <= Qnat n.
Proof. unfold Qnat, Qle; simpl. lia. Qed.

Lemma num_div_counts (a b : nat) :
  (0 < b)%nat -> num_div (of_nat a) (of_nat b) = Num (Qnat a / Qnat b).
Proof.
  intros Hb. unfold of_nat, num_div. fold (Qnat a) (Qnat b).
  rewrite Qnat_eq_zero. destruct b; [lia|reflexivity].
Qed.

Lemma guarded_ratio (a b : nat) :
  (if (0 <? b)%nat then num_div (of_nat a) (of_nat b) else Num 0)
  = Num (ratio_or_zero (Qnat a) (Qnat b)).
Proof.
  unfold ratio_or_zero. rewrite Qnat_eq_zero.
  destruct b as [|b]; [reflexivity|].
  replace (0 <? S b)%nat with true by reflexivity.
  rewrite num_div_counts by lia. reflexivity.
Qed.

Lemma ratio_or_zero_nonneg (a b : Q) :
  0 <= a -> 0 <= b -> 0 <= ratio_or_zero a b.
Proof.
  intros Ha Hb. unfold ratio_or_zero.
  destruct (Qeq_bool b 0) eqn:E; [apply Qle_refl|].
  apply Qeq_bool_neq in E.
  apply Qle_shift_div_l; [|now rewrite Qmult_0_l].
  apply Qle_lteq in Hb as [Hb|Hb]; [exact Hb|]. symmetry in Hb. contradiction.
Qed.

Lemma Qltb_lt (x y : Q) : Qltb x y = true <-> x < y.
Proof.
  unfold Qltb. rewrite negb_true_iff. split.
  - intros H. apply Qnot_le_lt. intros Hle.
    apply Qle_bool_iff in Hle. congruence.
  - intros H. destruct (Qle_bool y x) eqn:E; [|reflexivity].
    apply Qle_bool_iff in E. exfalso. apply (Qlt_not_le _ _ H E).
Qed.

Lemma guarded_f1 (p r : Q) :
  0 <= p -> 0 <= r ->
  num_eq
    (if num_gt (num_add (Num p) (Num r)) (Num 0) then
       num_div (num_mul (Num 2) (num_mul (Num p) (Num r)))
               (num_add (Num p) (Num r))
     else Num 0)
    (Num (ratio_or_zero (2 * p * r) (p + r))).
Proof.
  intros Hp Hr. cbn [num_add num_mul num_gt num_lt].
  unfold ratio_or_zero.
  destruct (Qltb 0 (p + r)) eqn:E.
  - apply Qltb_lt in E.
    assert (Hne : Qeq_bool (p + r) 0 = false).
    { destruct (Qeq_bool (p + r) 0) eqn:E0; [|reflexivity].
      apply Qeq_bool_iff in E0. rewrite E0 in E.
      exfalso. apply (Qlt_irrefl _ E). }
    cbn [num_div]. rewrite Hne. cbn [num_eq].
    now rewrite Qmult_assoc.
  - assert (Hz : p + r == 0).
    { apply Qle_antisym.
      - apply Qnot_lt_le. intros Hlt. apply Qltb_lt in Hlt. congruence.
      - replace 0 with (0 + 0) by reflexivity. now apply Qplus_le_compat. }
    apply Qeq_bool_iff in Hz. rewrite Hz. cbn [num_eq]. reflexivity.
Qed.

Lemma positive_at_iff (t : Q) (r : row) :
  positive_at t r = true <-> exists s, ewi r = Some s /\ t <= s.
Proof.
  unfold positive_at. destruct (ewi r) as [s|]; split.
  - intros H. exists s. split; [reflexivity|now apply Qle_bool_iff].
  - intros [s' [E H]]. injection E as <-. now apply Qle_bool_iff.
  - discriminate.
  - intros [s' [E _]]. discriminate.
Qed.

Lemma sweep_at_spec (df : DataFrame) (t : Q) :
  both_classes (outcomes df) = true ->
  exists m, sweep_at df t = Ok m /\ line_agrees df t m.
Proof.
  intros Hb. unfold sweep_at.
  rewrite (confusion_counts_spec df t Hb). cbn [bind].
  eexists; split; [reflexivity|].
  unfold line_agrees; cbn [m_threshold m_precision m_recall m_f1 m_accuracy].
  rewrite !guarded_ratio.
  fold (precision_spec df t) (recall_spec df t).
  split; [reflexivity|]. split; [cbn; reflexivity|]. split; [cbn; reflexivity|].
  split.
  - apply guarded_f1; apply ratio_or_zero_nonneg; apply Qnat_nonneg.
  - pose proof (counts_partition df (positive_at t)) as Hn.
    fold (TP df t) (TN df t) (FP df t) (FN df t) in Hn. rewrite Hn.
    rewrite num_div_counts.
    + cbn. reflexivity.
    + apply both_classes_nonempty in Hb. unfold outcomes in Hb.
      now rewrite length_map in Hb.
Qed.

(** C6: the sweep visits the thresholds 0.4, 0.5, 0.6 and 0.7, a row is
    classified positive exactly when its score is at least the threshold,
    and precision, recall, F1 and accuracy follow the stated formulas on the
    confusion counts; on scores 0.6 and 0.4 with outcomes 1 and 0 the counts
    at 0.5 are TP = 1, TN = 1, FP = 0, FN = 0 and the four metrics are 1. *)
Theorem sweep_spec :
  sweep_thresholds = [0.4; 0.5; 0.6; 0.7] /\
  (forall df t, predict df (Num t) = map (positive_at t) df) /\
  (forall t r, positive_at t r = true <-> exists s, ewi r = Some s /\ t <= s) /\
  (forall df, both_classes (outcomes df) = true ->
     (forall t, confusion_counts df (Num t)
                = Ok (TN df t, FP df t, FN df t, TP df t)) /\
     exists m4 m5 m6 m7,
       sweep df = Ok [m4; m5; m6; m7] /\
       line_agrees df 0.4 m4 /\ line_agrees df 0.5 m5 /\
       line_agrees df 0.6 m6 /\ line_agrees df 0.7 m7) /\
  confusion_counts frame_sweep (Num 0.5) = Ok (1, 0, 0, 1)%nat /\
  (exists m, sweep_at frame_sweep 0.5 = Ok m /\
     num_eq (m_precision m) (Num 1) /\ num_eq (m_recall m) (Num 1) /\
     num_eq (m_f1 m) (Num 1) /\ num_eq (m_accuracy m) (Num 1)).
Proof.
  split; [reflexivity|].
  split.
  { intros df t. rewrite predict_rows. apply map_ext. intros r.
    apply predict_positive_at. }
  split; [exact positive_at_iff|].
  split.
  { intros df Hb. split; [intros t; now apply confusion_counts_spec|].
    destruct (sweep_at_spec df 0.4 Hb) as [m4 [E4 H4]].
    destruct (sweep_at_spec df 0.5 Hb) as [m5 [E5 H5]].
    destruct (sweep_at_spec df 0.6 Hb) as [m6 [E6 H6]].
    destruct (sweep_at_spec df 0.7 Hb) as [m7 [E7 H7]].
    exists m4, m5, m6, m7. unfold sweep, sweep_thresholds. cbn [mapM].
    rewrite E4, E5, E6, E7. cbn [bind].
    split; [reflexivity|]. split; [exact H4|]. split; [exact H5|].
    split; [exact H6|exact H7]. }
  split; [vm_compute; reflexivity|].
  eexists; split; [vm_compute; reflexivity|].
  cbn [m_precision m_recall m_f1 m_accuracy num_eq].
  repeat split; reflexivity.
Qed.

Lemma sweep_spec_witness :
  exists m4 m5 m6 m7,
    sweep frame_separated = Ok [m4; m5; m6; m7] /\
    line_agrees frame_separated 0.4 m4 /\ line_agrees frame_separated 0.5 m5 /\
    line_agrees frame_separated 0.6 m6 /\ line_agrees frame_separated 0.7 m7.
Proof.
  destruct sweep_spec as [_ [_ [_ [H _]]]].
  exact (proj2 (H frame_separated eq_refl)).
Defined.

(** ** Exceptions pass through the script *)

Lemma bind_ok_inv {A B : Type} (m : res A) (k : A -> res B) (b : B) :
  bind m k = Ok b -> exists a, m = Ok a /\ k a = Ok b.
Proof. destruct m as [a|e]; [intros H; now exists a|discriminate]. Qed.

Ltac bind_inv H :=
  let a := fresh "a" in
  let E := fresh "E" in
  apply bind_ok_inv in H as [a [E H]].

Lemma mapM_Forall2 {A B : Type} (f : A -> res B) (l : list A) (bs : list B) :
  mapM f l = Ok bs -> Forall2 (fun a b => f a = Ok b) l bs.
Proof.
  revert bs; induction l as [|a l IH]; intros bs H; simpl in H.
  - injection H as <-. constructor.
  - bind_inv H. bind_inv H. injection H as <-. constructor; auto.
Qed.

Lemma all_present_missing (s : list (option Q)) :
  In None s -> all_present s = None.
Proof.
  induction s as [|[v|] s IH]; intros Hin; simpl.
  - destruct Hin.
  - destruct Hin as [Hin|Hin]; [discriminate|]. now rewrite IH.
  - reflexivity.
Qed.

Lemma all_present_length (s : list (option Q)) (vs : list Q) :
  all_present s = Some vs -> length vs = length s.
Proof.
  revert vs; induction s as [|[v|] s IH]; intros vs H; simpl in H.
  - injection H as <-. reflexivity.
  - destruct (all_present s) as [ws|]; [|discriminate].
    injection H as <-. simpl. now rewrite (IH ws).
  - discriminate.
Qed.

Lemma check_array_missing (s : list (option Q)) :
  In None s -> check_array s = Raise (ValueError "Input contains NaN.").
Proof.
  intros Hin. unfold check_array. rewrite (all_present_missing s Hin).
  destruct s; [destruct Hin|reflexivity].
Qed.

Lemma check_array_ok (s : list (option Q)) (vs : list Q) :
  check_array s = Ok vs ->
  all_present s = Some vs /\ length vs = length s /\ (0 < length s)%nat.
Proof.
  unfold check_array. destruct s as [|x s]; [discriminate|].
  destruct (all_present (x :: s)) as [ws|] eqn:E; [|discriminate].
  intros H; injection H as <-.
  split; [reflexivity|]. split; [now apply all_present_length|simpl; lia].
Qed.

Lemma roc_auc_score_ok_inv (y : list bool) (s : list (option Q)) (a : num) :
  roc_auc_score y s = Ok a ->
  both_classes y = true /\ exists vs, check_array s = Ok vs.
Proof.
  unfold roc_auc_score. intros H. bind_inv H.
  destruct (both_classes y); [|discriminate].
  split; [reflexivity|]. now exists a0.
Qed.

Lemma outcomes_impute (csv : DataFrame) : outcomes (impute csv) = outcomes csv.
Proof. rewrite impute_rowwise. unfold outcomes. now rewrite map_map. Qed.

(** ** The AUC of a single class *)

Lemma single_class_not_both (df : DataFrame) :
  (forall r, In r df -> conflict_occurred r = false) \/
  (forall r, In r df -> conflict_occurred r = true) ->
  both_classes (outcomes df) = false.
Proof.
  unfold both_classes, outcomes. intros [H|H].
  - replace (existsb (fun b => b) (map conflict_occurred df)) with false;
      [reflexivity|].
    symmetry. apply not_true_is_false. intros E.
    apply existsb_exists in E as [b [Hb Eb]].
    apply in_map_iff in Hb as [r [Hr Hin]]. rewrite (H r Hin) in Hr.
    congruence.
  - replace (existsb negb (map conflict_occurred df)) with false;
      [apply andb_false_r|].
    symmetry. apply not_true_is_false. intros E.
    apply existsb_exists in E as [b [Hb Eb]].
    apply in_map_iff in Hb as [r [Hr Hin]]. rewrite (H r Hin) in Hr.
    subst b. discriminate.
Qed.

(** C5: when the outcome flags hold a single class (no positive row or no
    negative row) the AUC computation raises an error instead of returning
    a number, and the error ends the run. *)
Theorem single_class_auc_raises (csv : DataFrame) :
  (forall r, In r csv -> conflict_occurred r = false) \/
  (forall r, In r csv -> conflict_occurred r = true) ->
  let df := impute csv in
  (exists e, roc_auc_score (outcomes df) (get_col col_ewi df) = Raise e) /\
  (forall vs, check_array (get_col col_ewi df) = Ok vs ->
     roc_auc_score (outcomes df) (get_col col_ewi df)
     = Raise (ValueError
         "Only one class present in y_true. ROC AUC score is not defined in that case.")) /\
  (exists e, run csv = Raise e).
Proof.
  intros Hsingle df.
  assert (Hb : both_classes (outcomes df) = false).
  { unfold df. rewrite outcomes_impute. now apply single_class_not_both. }
  assert (Hraise : exists e,
             roc_auc_score (outcomes df) (get_col col_ewi df) = Raise e).
  { unfold roc_auc_score.
    destruct (check_array (get_col col_ewi df)) as [vs|e]; cbn [bind].
    - rewrite Hb. eexists; reflexivity.
    - eexists; reflexivity. }
  split; [exact Hraise|]. split.
  - intros vs Hvs. unfold roc_auc_score. rewrite Hvs. cbn [bind].
    now rewrite Hb.
  - destruct Hraise as [e He]. exists e. unfold run. fold df.
    now rewrite He.
Qed.

Lemma single_class_auc_raises_witness :
  roc_auc_score (outcomes (impute frame_all_conflict))
                (get_col col_ewi (impute frame_all_conflict))
  = Raise (ValueError
      "Only one class present in y_true. ROC AUC score is not defined in that case.").
Proof.
  assert (H : forall r, In r frame_all_conflict -> conflict_occurred r = true).
  { intros r [<-|[<-|[]]]; reflexivity. }
  exact (proj1 (proj2 (single_class_auc_raises frame_all_conflict (or_intror H)))
               [0.9; 0.8] eq_refl).
Defined.

(** ** Rows whose score stays missing *)

Lemma missing_cell (df : DataFrame) :
  (exists r, In r df /\ ewi r = None) -> In None (get_col col_ewi df).
Proof.
  intros [r [Hin He]]. unfold get_col. apply in_map_iff.
  exists r. split; [exact He|exact Hin].
Qed.

Lemma count_pairs_rows (df : DataFrame) (th : num) (a b : bool) :
  count_pairs a b (outcomes df) (predict df th)
  = count_rows (fun r => Bool.eqb (conflict_occurred r) a
                         && Bool.eqb (num_ge (to_num (ewi r)) th) b) df.
Proof. rewrite predict_rows. unfold outcomes. apply count_pairs_map. Qed.

Lemma missing_predicted_negative (r : row) (th : num) :
  ewi r = None -> num_ge (to_num (ewi r)) th = false.
Proof. intros ->. unfold num_ge, num_le. simpl. now destruct th. Qed.

Lemma count_rows_nonmissing (df : DataFrame) (th : num) (a b : bool) :
  let hit := fun r => Bool.eqb (conflict_occurred r) a
                      && Bool.eqb (num_ge (to_num (ewi r)) th) b in
  count_rows hit df
  = (count_rows hit (nonmissing df)
     + if b then 0
       else count_rows (fun r => isna (ewi r)
                                 && Bool.eqb (conflict_occurred r) a) df)%nat.
Proof.
  intros hit. unfold count_rows, nonmissing.
  induction df as [|r df IH]; [now destruct b|].
  cbn [filter]. unfold notna at 1.
  destruct (ewi r) as [s|] eqn:He; cbn [isna negb andb filter].
  - destruct (hit r); cbn [length]; rewrite IH; destruct b; lia.
  - unfold hit at 1. rewrite (missing_predicted_negative r th He).
    destruct b; cbn [Bool.eqb].
    + rewrite andb_false_r. rewrite IH. lia.
    + rewrite andb_true_r.
      destruct (Bool.eqb (conflict_occurred r) a); cbn [length]; rewrite IH; lia.
Qed.

Lemma residual_missing_components (csv : DataFrame) (r : row) :
  In r (impute csv) -> ewi r = None -> present (named_components r) = [].
Proof.
  rewrite impute_rowwise. intros Hin He.
  apply in_map_iff in Hin as [r0 [<- _]].
  cbn [set_ewi ewi] in He.
  change (named_components (set_ewi r0 _)) with (named_components r0).
  destruct (ewi r0); [discriminate|]. cbn [fillna] in He.
  rewrite row_mean_named in He.
  pose proof (mean_skipna_spec (named_components r0)) as Hm.
  destruct (present (named_components r0)); [reflexivity|].
  destruct Hm as [v [Hv _]]. congruence.
Qed.

(** C1, as the script behaves: rows whose composite score is still missing
    after imputation (they lack all six components) are not excluded.  Every
    computation receives the whole columns: the AUC and ROC routines refuse
    the missing value with an error that ends the run, and the threshold
    classification counts such a row as a predicted negative. *)
Theorem residual_missing_not_excluded (csv : DataFrame) :
  (exists r, In r (impute csv) /\ ewi r = None) ->
  let df := impute csv in
  (forall r, In r df -> ewi r = None -> present (named_components r) = []) /\
  roc_auc_score (outcomes df) (get_col col_ewi df)
  = Raise (ValueError "Input contains NaN.") /\
  roc_curve (outcomes df) (get_col col_ewi df)
  = Raise (ValueError "Input contains NaN.") /\
  run csv = Raise (ValueError "Input contains NaN.") /\
  forall th a,
    count_pairs a true (outcomes df) (predict df th)
    = count_pairs a true (outcomes (nonmissing df)) (predict (nonmissing df) th)
    /\
    count_pairs a false (outcomes df) (predict df th)
    = (count_pairs a false (outcomes (nonmissing df))
                   (predict (nonmissing df) th)
       + count_rows (fun r => isna (ewi r) && Bool.eqb (conflict_occurred r) a)
                    df)%nat.
Proof.
  intros Hmiss df. split; [exact (residual_missing_components csv)|].
  apply missing_cell in Hmiss. fold df in Hmiss.
  assert (Hauc : roc_auc_score (outcomes df) (get_col col_ewi df)
                 = Raise (ValueError "Input contains NaN.")).
  { unfold roc_auc_score. now rewrite (check_array_missing _ Hmiss). }
  split; [exact Hauc|]. split.
  { unfold roc_curve. now rewrite (check_array_missing _ Hmiss). }
  split.
  { unfold run. fold df. now rewrite Hauc. }
  intros th a. rewrite !count_pairs_rows. split.
  - rewrite (count_rows_nonmissing df th a true). lia.
  - apply (count_rows_nonmissing df th a false).
Qed.

Lemma residual_missing_not_excluded_witness :
  run frame_residual = Raise (ValueError "Input contains NaN.").
Proof.
  assert (H : exists r, In r (impute frame_residual) /\ ewi r = None).
  { exists (sample None None true (Some 2%Z)). split; [|reflexivity].
    vm_compute. right. right. left. reflexivity. }
  exact (proj1 (proj2 (proj2 (proj2
           (residual_missing_not_excluded frame_residual H))))).
Defined.

(** Against C1 as stated: in a frame whose third row has no score and no
    component, the row is still missing after imputation, the run ends with
    an error at the AUC, and the confusion counts at 0.5 over all rows
    (TN, FP, FN, TP) differ from the counts over the rows that have a
    score. *)
Lemma residual_missing_counterexample :
  (exists r, In r (impute frame_residual) /\ ewi r = None) /\
  run frame_residual = Raise (ValueError "Input contains NaN.") /\
  confusion_counts (impute frame_residual) (Num 0.5) = Ok (1, 0, 1, 1)%nat /\
  confusion_counts (nonmissing (impute frame_residual)) (Num 0.5)
  = Ok (1, 0, 0, 1)%nat.
Proof.
  split.
  { exists (sample None None true (Some 2%Z)). split; [|reflexivity].
    vm_compute. right. right. left. reflexivity. }
  repeat split; vm_compute; reflexivity.
Qed.

(** ** The summary at the optimal threshold *)

(** C2, at a failing input: with two rows of equal score and different
    outcomes the optimal threshold is infinite, no row is predicted positive
    (TP + FP = 0), and the summary's precision and F1 are NaN, not 0; the
    sweep, which guards its divisions, yields 0 at threshold 0.6 on the same
    rows. *)
Theorem summary_division_unguarded :
  exists rep,
    run frame_tied = Ok rep /\
    r_optimal_threshold rep = PInf /\
    s_confusion (r_summary rep) = (1, 0, 1, 0)%nat /\
    s_precision (r_summary rep) = NaN /\
    s_f1 (r_summary rep) = NaN /\
    exists m,
      nth_error (r_sweep rep) 2 = Some m /\
      confusion_counts frame_tied (Num 0.6) = Ok (1, 0, 1, 0)%nat /\
      m_precision m = Num 0 /\ m_recall m = Num 0 /\ m_f1 m = Num 0.
Proof.
  eexists. split; [vm_compute; reflexivity|].
  cbn [r_optimal_threshold r_summary s_confusion s_precision s_f1 r_sweep].
  repeat (split; [reflexivity|]).
  eexists. split; [reflexivity|].
  cbn [m_precision m_recall m_f1].
  repeat split; vm_compute; reflexivity.
Qed.

(** ** The recommendation *)

Lemma exceeds_lt (x y : Q) : exceeds (Num x) y <-> y < x.
Proof. unfold exceeds, num_gt, num_lt. apply Qltb_lt. Qed.

Lemma recommend_spec (a r : num) :
  (recommend a r = DEPLOY <-> exceeds a 0.75 /\ exceeds r 0.7) /\
  (recommend a r = PILOT <->
     ~ (exceeds a 0.75 /\ exceeds r 0.7) /\ exceeds a 0.65) /\
  (recommend a r = IMPROVE <->
     ~ (exceeds a 0.75 /\ exceeds r 0.7) /\ ~ exceeds a 0.65).
Proof.
  unfold recommend, exceeds.
  destruct (num_gt a (Num 0.75)), (num_gt r (Num 0.7)), (num_gt a (Num 0.65));
    cbn [andb]; repeat split;
    try discriminate; try reflexivity;
    try (intros [? ?]; discriminate);
    try (intros [H ?]; exfalso; apply H; now split);
    try (intros [? H]; exfalso; now apply H);
    try (intros [? ?]; discriminate);
    try (intros ?; intuition discriminate).
Qed.

(** C7: the verdict is DEPLOY exactly when the AUC exceeds 0.75 and the
    recall recomputed at the optimal threshold exceeds 0.7; otherwise PILOT
    exactly when the AUC exceeds 0.65; otherwise IMPROVE; every comparison
    is strict. *)
Theorem verdict_spec (csv : DataFrame) (rep : report) :
  run csv = Ok rep ->
  let df := impute csv in
  let th := r_optimal_threshold rep in
  let tp := count_rows (fun r => conflict_occurred r
                                 && num_ge (to_num (ewi r)) th) df in
  let fn := count_rows (fun r => conflict_occurred r
                                 && negb (num_ge (to_num (ewi r)) th)) df in
  let auc := r_auc rep in
  let recall := s_recall (r_summary rep) in
  roc_auc_score (outcomes df) (get_col col_ewi df) = Ok auc /\
  find_optimal_threshold df = Ok th /\
  recall = Num (Qnat tp / Qnat (tp + fn)) /\
  (0 < tp + fn)%nat /\
  (r_verdict rep = DEPLOY <-> exceeds auc 0.75 /\ exceeds recall 0.7) /\
  (r_verdict rep = PILOT <->
     ~ (exceeds auc 0.75 /\ exceeds recall 0.7) /\ exceeds auc 0.65) /\
  (r_verdict rep = IMPROVE <->
     ~ (exceeds auc 0.75 /\ exceeds recall 0.7) /\ ~ exceeds auc 0.65) /\
  (forall x y, exceeds (Num x) y <-> y < x).
Proof.
  intros Hrun df th tp fn auc recall. unfold run in Hrun. fold df in Hrun.
  apply bind_ok_inv in Hrun as [a [Hauc Hrun]].
  apply bind_ok_inv in Hrun as [table [Hsweep Hrun]].
  apply bind_ok_inv in Hrun as [opt [Hopt Hrun]].
  apply bind_ok_inv in Hrun as [comps [Hcomps Hrun]].
  apply bind_ok_inv in Hrun as [s [Hsum Hrun]].
  injection Hrun as <-.
  cbn [r_auc r_optimal_threshold r_summary r_verdict] in *.
  destruct (roc_auc_score_ok_inv _ _ _ Hauc) as [Hb _].
  unfold summarize in Hsum.
  rewrite (confusion_counts_rows df opt Hb) in Hsum. cbn [bind] in Hsum.
  injection Hsum as <-. cbn [s_recall] in *.
  assert (Hpos : (0 < tp + fn)%nat).
  { unfold tp, fn, th, count_rows. unfold both_classes in Hb.
    apply andb_true_iff in Hb as [Hb _].
    apply existsb_exists in Hb as [b [Hin Hb]]. subst b.
    unfold outcomes in Hin. apply in_map_iff in Hin as [r [Hr Hin]].
    clear - Hr Hin. induction df as [|r' df' IH]; [destruct Hin|].
    cbn [filter]. destruct Hin as [->|Hin].
    - rewrite Hr. cbn [andb negb].
      destruct (num_ge (to_num (ewi r)) opt); cbn [negb length]; lia.
    - specialize (IH Hin).
      destruct (conflict_occurred r' && num_ge (to_num (ewi r')) opt);
      destruct (conflict_occurred r' && negb (num_ge (to_num (ewi r')) opt));
      cbn [length]; lia. }
  split; [exact Hauc|]. split; [exact Hopt|].
  split; [unfold recall; now apply num_div_counts|].
  split; [exact Hpos|].
  destruct (recommend_spec auc recall) as [H1 [H2 H3]].
  split; [exact H1|]. split; [exact H2|]. split; [exact H3|].
  exact exceeds_lt.
Qed.

Lemma verdict_spec_witness :
  exists rep,
    run frame_separated = Ok rep /\ r_verdict rep = DEPLOY /\
    exceeds (r_auc rep) 0.75 /\ exceeds (s_recall (r_summary rep)) 0.7.
Proof.
  assert (E : exists rep, run frame_separated = Ok rep /\ r_verdict rep = DEPLOY).
  { eexists. split; vm_compute; reflexivity. }
  destruct E as [rep [E V]]. exists rep.
  split; [exact E|]. split; [exact V|].
  pose proof (verdict_spec frame_separated rep E) as H. cbv zeta in H.
  destruct H as [_ [_ [_ [_ [H _]]]]]. apply H. exact V.
Defined.

(** ** Priority zones *)

(** C8, at a failing input: when the priority column holds a missing value
    between 3 and 1, sorting leaves the values where they are, and the loop
    reports class 3 (WATCH) before class 1 (CRITICAL): the order is not
    ascending. *)
Theorem zones_not_ascending :
  map priority_class frame_zones = [Some 3%Z; None; Some 1%Z] /\
  py_sorted priority_lt (unique (map priority_class frame_zones))
  = [Some 3%Z; None; Some 1%Z] /\
  zone_priorities frame_zones = [3%Z; 1%Z] /\
  map z_label (zone_validation frame_zones)
  = ["WATCH"%string; "CRITICAL"%string].
Proof. repeat split; vm_compute; reflexivity. Qed.

(** ** Components *)

(** C10: the component table has one line for each of the five components
    cattle_convergence, conflict_risk, resource_stress, water_score and
    forage_score, holding its AUC and its means over the conflict and the
    non-conflict rows; access_constraints, one of the six columns used for
    imputation, has no line. *)
Theorem components_evaluated (df : DataFrame) (lines : list component_line) :
  component_analysis df = Ok lines ->
  map snd components
  = [ col_cattle_convergence; col_conflict_risk; col_resource_stress;
      col_water_score; col_forage_score ] /\
  ~ In col_access_constraints (map snd components) /\
  In col_access_constraints component_cols_for_ewi /\
  length component_cols_for_ewi = 6%nat /\
  Forall2
    (fun nc line =>
       c_name line = fst nc /\
       roc_auc_score (outcomes df) (get_col (snd nc) df) = Ok (c_auc line) /\
       c_mean_conflict line
       = to_num (mean_skipna (get_col (snd nc) (filter conflict_occurred df))) /\
       c_mean_no_conflict line
       = to_num (mean_skipna
                   (get_col (snd nc)
                            (filter (fun r => negb (conflict_occurred r)) df))))
    components lines.
Proof.
  intros H. split; [reflexivity|]. split.
  { cbn. intros [E|[E|[E|[E|[E|[]]]]]]; discriminate. }
  split; [cbn; tauto|]. split; [reflexivity|].
  apply mapM_Forall2 in H.
  eapply Forall2_impl; [|exact H].
  intros [name col] line E. unfold evaluate_component in E.
  apply bind_ok_inv in E as [a [Ea E]]. injection E as <-.
  cbn [c_name c_auc c_mean_conflict c_mean_no_conflict fst snd].
  repeat split; try reflexivity. exact Ea.
Qed.

Lemma components_evaluated_witness :
  exists lines,
    component_analysis frame_separated = Ok lines /\
    map c_name lines
    = [ "Cattle Convergence"%string; "Conflict Risk"%string;
        "Resource Stress"%string; "Water Score"%string;
        "Forage Score"%string ] /\
    ~ In col_access_constraints (map snd components).
Proof.
  assert (E : exists lines,
             component_analysis frame_separated = Ok lines /\
             map c_name lines
             = [ "Cattle Convergence"%string; "Conflict Risk"%string;
                 "Resource Stress"%string; "Water Score"%string;
                 "Forage Score"%string ]).
  { eexists. split; vm_compute; reflexivity. }
  destruct E as [lines [E N]]. exists lines.
  split; [exact E|]. split; [exact N|].
  exact (proj1 (proj2 (components_evaluated frame_separated lines E))).
Defined.

(** ** Arrays: positions, selections, differences *)

Section ArrayFacts.
Context {A : Type}.

Lemma take_length (d : A) (arr : list A) (idxs : list nat) :
  length (take d arr idxs) = length idxs.
Proof. unfold take. apply length_map. Qed.

Lemma take_app (d : A) (arr : list A) (i1 i2 : list nat) :
  take d arr (i1 ++ i2) = take d arr i1 ++ take d arr i2.
Proof. unfold take. apply map_app. Qed.

Lemma nth_snoc (d : A) (l : list A) (x : A) : nth (length l) (l ++ [x]) d = x.
Proof. rewrite app_nth2, Nat.sub_diag by lia. reflexivity. Qed.

Lemma last_cons_snoc (d d' x : A) (l : list A) (z : A) :
  last (x :: l ++ [z]) d = z.
Proof. change (x :: l ++ [z]) with ((x :: l) ++ [z]). apply last_last. Qed.

(** In a list sorted for [R], an earlier position is related to a later
    one. *)
Lemma strongly_sorted_nth (R : A -> A -> Prop) (d : A) (l : list A) :
  StronglySorted R l ->
  forall i j, (i < j < length l)%nat -> R (nth i l d) (nth j l d).
Proof.
  induction 1 as [|x l Hs IH Hall]; intros i j [Hij Hj]; simpl in Hj.
  - lia.
  - destruct j as [|j]; [lia|]. destruct i as [|i]; simpl.
    + rewrite Forall_forall in Hall. apply Hall. apply nth_In. lia.
    + apply IH. lia.
Qed.

Lemma strongly_sorted_snoc (R : A -> A -> Prop) (l : list A) (x : A) :
  StronglySorted R l -> Forall (fun a => R a x) l ->
  StronglySorted R (l ++ [x]).
Proof.
  induction 1 as [|y l Hs IH Hall]; intros Hx; simpl.
  - constructor; constructor.
  - inversion Hx as [|? ? Hyx Hlx]; subst. constructor.
    + now apply IH.
    + apply Forall_app. split; [exact Hall|]. now constructor.
Qed.

Lemma strongly_sorted_rev (R : A -> A -> Prop) (l : list A) :
  StronglySorted R l -> StronglySorted (fun a b => R b a) (rev l).
Proof.
  induction 1 as [|x l Hs IH Hall]; simpl; [constructor|].
  apply strongly_sorted_snoc; [exact IH|].
  apply Forall_forall. intros a Ha. apply in_rev in Ha.
  rewrite Forall_forall in Hall. now apply Hall.
Qed.

Lemma strongly_sorted_weaken (R S : A -> A -> Prop) (l : list A) :
  (forall a b, In a l -> In b l -> R a b -> S a b) ->
  StronglySorted R l -> StronglySorted S l.
Proof.
  intros H Hs. induction Hs as [|x l Hs IH Hall]; [constructor|].
  constructor.
  - apply IH. intros a b Ha Hb. apply H; now right.
  - rewrite Forall_forall in *. intros b Hb.
    apply H; [now left|now right|now apply Hall].
Qed.
End ArrayFacts.

Lemma strongly_sorted_map {A B : Type} (R : B -> B -> Prop) (f : A -> B)
      (l : list A) :
  StronglySorted (fun a b => R (f a) (f b)) l -> StronglySorted R (map f l).
Proof.
  induction 1 as [|x l Hs IH Hall]; simpl; constructor; [exact IH|].
  rewrite Forall_forall in *. intros b Hb.
  apply in_map_iff in Hb as [a [<- Ha]]. now apply Hall.
Qed.

(** Selecting increasing positions from a sorted array keeps it sorted. *)
Lemma take_sorted {A : Type} (R : A -> A -> Prop) (d : A) (arr : list A)
      (idxs : list nat) :
  StronglySorted R arr -> StronglySorted lt idxs ->
  Forall (fun i => (i < length arr)%nat) idxs ->
  StronglySorted R (take d arr idxs).
Proof.
  intros Harr Hs Hb. unfold take. apply strongly_sorted_map.
  induction Hs as [|i idxs Hs IH Hall]; [constructor|].
  inversion Hb as [|? ? Hi Hrest]; subst. constructor; [now apply IH|].
  rewrite Forall_forall in *. intros j Hj.
  apply (strongly_sorted_nth R d arr Harr). split; [now apply Hall|now apply Hrest].
Qed.

Lemma where_from (s : nat) (mask : list bool) :
  let idxs := map fst (filter snd (combine (seq s (length mask)) mask)) in
  StronglySorted lt idxs /\
  Forall (fun i => (s <= i < s + length mask)%nat
                   /\ nth (i - s) mask false = true) idxs.
Proof.
  revert s; induction mask as [|b mask IH]; intros s; cbn zeta.
  - split; constructor.
  - destruct (IH (S s)) as [Hs Hall]. cbn [length seq combine filter snd].
    assert (Hall' : Forall (fun i => (s <= i < s + S (length mask))%nat
                            /\ nth (i - s) (b :: mask) false = true)
                      (map fst (filter snd (combine (seq (S s) (length mask)) mask)))).
    { eapply Forall_impl; [|exact Hall]. intros i [Hi Hn]. split; [lia|].
      replace (i - s)%nat with (S (i - S s)) by lia. exact Hn. }
    destruct b; cbn [map fst]; [|split; assumption].
    split.
    + constructor; [exact Hs|].
      eapply Forall_impl; [|exact Hall]. intros i [Hi _]. lia.
    + constructor; [|exact Hall'].
      split; [lia|]. now rewrite Nat.sub_diag.
Qed.

Lemma np_where_sorted (mask : list bool) : StronglySorted lt (np_where mask).
Proof. exact (proj1 (where_from 0 mask)). Qed.

Lemma np_where_spec (mask : list bool) :
  Forall (fun i => (i < length mask)%nat /\ nth i mask false = true)
         (np_where mask).
Proof.
  eapply Forall_impl; [|exact (proj2 (where_from 0 mask))].
  intros i [Hi Hn]. rewrite Nat.sub_0_r in Hn. split; [lia|exact Hn].
Qed.

Lemma where_from_snoc_true (s : nat) (mask : list bool) :
  map fst (filter snd (combine (seq s (length (mask ++ [true]))) (mask ++ [true])))
  = map fst (filter snd (combine (seq s (length mask)) mask))
    ++ [(s + length mask)%nat].
Proof.
  revert s; induction mask as [|b mask IH]; intros s.
  - cbn. now rewrite Nat.add_0_r.
  - cbn [app length seq combine filter snd]. specialize (IH (S s)).
    replace (s + S (length mask))%nat with (S s + length mask)%nat by lia.
    destruct b; cbn [map fst app]; now rewrite IH.
Qed.

Lemma np_where_snoc_true (mask : list bool) :
  np_where (mask ++ [true]) = np_where mask ++ [length mask].
Proof. unfold np_where. now rewrite where_from_snoc_true. Qed.

Lemma seq_sorted (s n : nat) : StronglySorted lt (seq s n).
Proof.
  revert s; induction n as [|n IH]; intros s; simpl; constructor; [apply IH|].
  apply Forall_forall. intros i Hi. apply in_seq in Hi. lia.
Qed.

Lemma np_diff_length (l : list Z) : length (np_diff l) = (length l - 1)%nat.
Proof.
  induction l as [|a [|b l] IH]; try reflexivity.
  change (np_diff (a :: b :: l)) with ((b - a)%Z :: np_diff (b :: l)).
  cbn [length] in *. rewrite IH. lia.
Qed.

Lemma np_diff_Q_nth (l : list Q) (i : nat) :
  (S i < length l)%nat ->
  nth i (np_diff_Q l) 0 = nth (S i) l 0 - nth i l 0.
Proof.
  revert i; induction l as [|a [|b l] IH]; intros i Hi; cbn [length] in Hi;
    try lia.
  change (np_diff_Q (a :: b :: l)) with ((b - a) :: np_diff_Q (b :: l)).
  destruct i as [|i]; [reflexivity|].
  cbn [nth]. rewrite IH by (cbn [length]; lia). reflexivity.
Qed.

Lemma np_diff_Q_length (l : list Q) : length (np_diff_Q l) = (length l - 1)%nat.
Proof.
  induction l as [|a [|b l] IH]; try reflexivity.
  change (np_diff_Q (a :: b :: l)) with ((b - a) :: np_diff_Q (b :: l)).
  cbn [length] in *. rewrite IH. lia.
Qed.

Lemma map2_length {A B C : Type} (f : A -> B -> C) (l : list A) (m : list B) :
  length (map2 f l m) = Nat.min (length l) (length m).
Proof.
  revert m; induction l as [|a l IH]; intros [|b m]; simpl; auto.
Qed.

Lemma map2_snoc {A B C : Type} (f : A -> B -> C) (l : list A) (m : list B)
      (a : A) (b : B) :
  length l = length m ->
  map2 f (l ++ [a]) (m ++ [b]) = map2 f l m ++ [f a b].
Proof.
  revert m; induction l as [|x l IH]; intros [|y m] H; simpl in *;
    try discriminate; [reflexivity|].
  f_equal. apply IH. lia.
Qed.

(** ** The sort of the scores *)

Lemma insert_sorted_in (x : Q * bool) (l : list (Q * bool)) (z : Q * bool) :
  In z (insert_sorted x l) <-> z = x \/ In z l.
Proof.
  induction l as [|y l IH]; simpl.
  - intuition.
  - destruct (Qle_bool (fst x) (fst y)); simpl; [intuition|].
    rewrite IH. intuition.
Qed.

Lemma insert_sorted_sorted (x : Q * bool) (l : list (Q * bool)) :
  StronglySorted score_le l -> StronglySorted score_le (insert_sorted x l).
Proof.
  induction 1 as [|y l Hs IH Hall]; simpl.
  - constructor; constructor.
  - destruct (Qle_bool (fst x) (fst y)) eqn:E.
    + apply Qle_bool_iff in E. constructor; [now constructor|].
      constructor; [exact E|].
      eapply Forall_impl; [|exact Hall]. intros z Hz. unfold score_le in *.
      now apply Qle_trans with (fst y).
    + constructor; [exact IH|].
      apply Forall_forall. intros z Hz. apply insert_sorted_in in Hz.
      destruct Hz as [->|Hz].
      * unfold score_le. apply Qlt_le_weak. apply Qnot_le_lt. intros Hle.
        apply Qle_bool_iff in Hle. congruence.
      * rewrite Forall_forall in Hall. now apply Hall.
Qed.

Lemma stable_sort_sorted (l : list (Q * bool)) :
  StronglySorted score_le (stable_sort l).
Proof.
  induction l as [|x l IH]; simpl; [constructor|].
  now apply insert_sorted_sorted.
Qed.

Lemma stable_sort_in (l : list (Q * bool)) (z : Q * bool) :
  In z (stable_sort l) <-> In z l.
Proof.
  induction l as [|x l IH]; simpl; [tauto|].
  rewrite insert_sorted_in, IH. intuition.
Qed.

Lemma insert_sorted_length (x : Q * bool) (l : list (Q * bool)) :
  length (insert_sorted x l) = S (length l).
Proof.
  induction l as [|y l IH]; simpl; [reflexivity|].
  destruct (Qle_bool (fst x) (fst y)); simpl; [reflexivity|now rewrite IH].
Qed.

Lemma stable_sort_length (l : list (Q * bool)) :
  length (stable_sort l) = length l.
Proof.
  induction l as [|x l IH]; simpl; [reflexivity|].
  now rewrite insert_sorted_length, IH.
Qed.

Lemma combine_in_snd (vs : list Q) (y : list bool) (b : bool) :
  length vs = length y -> In b y -> exists v, In (v, b) (combine vs y).
Proof.
  revert y; induction vs as [|v vs IH]; intros [|c y] Hlen Hin; simpl in *;
    try discriminate; try contradiction.
  destruct Hin as [->|Hin].
  - exists v. now left.
  - destruct (IH y) as [w Hw]; [lia|exact Hin|]. exists w. now right.
Qed.

Lemma filter_length_pos {A : Type} (f : A -> bool) (l : list A) (x : A) :
  In x l -> f x = true -> (0 < length (filter f l))%nat.
Proof.
  intros Hin Hf.
  assert (H : In x (filter f l)) by (apply filter_In; now split).
  destruct (filter f l); [destruct H|simpl; lia].
Qed.

Lemma cumsum_last (l : list (Q * bool)) (acc : Z) :
  l <> [] ->
  nth (length l - 1)
      (cumsum_from acc (map (fun p : Q * bool => if snd p then 1%Z else 0%Z) l))
      0%Z
  = (acc + Z.of_nat (length (filter snd l)))%Z.
Proof.
  revert acc; induction l as [|p l IH]; intros acc Hne; [congruence|].
  destruct l as [|q l].
  - simpl. destruct (snd p); simpl; lia.
  - remember (q :: l) as L eqn:EL.
    assert (HL : L <> []) by (subst; discriminate).
    assert (Hlen : (length (p :: L) - 1 = S (length L - 1))%nat)
      by (subst; cbn [length]; lia).
    rewrite Hlen. cbn [map cumsum_from nth]. rewrite (IH _ HL).
    cbn [filter]. destruct (snd p); cbn [length]; lia.
Qed.

(** ** The points of the ROC curve *)

Section Curve.
Variables (y : list bool) (vs : list Q).
Hypothesis Hlen : length vs = length y.
Hypothesis Hboth : both_classes y = true.

Let desc := rev (stable_sort (combine vs y)).
Let ys := map fst desc.
Let dvi := np_where (map (fun d => negb (Qeq_bool d 0)) (np_diff_Q ys)).

Lemma desc_length : length desc = length y.
Proof.
  unfold desc. rewrite length_rev, stable_sort_length, length_combine. lia.
Qed.

Lemma desc_in (b : bool) : In b y -> exists v, In (v, b) desc.
Proof.
  intros Hin. destruct (combine_in_snd vs y b Hlen Hin) as [v Hv].
  exists v. unfold desc. apply in_rev. rewrite rev_involutive.
  now apply stable_sort_in.
Qed.

Lemma positives_pos : (0 < length (filter snd desc))%nat.
Proof.
  unfold both_classes in Hboth. apply andb_true_iff in Hboth as [Ht _].
  apply existsb_exists in Ht as [b [Hin Hb]]. subst b.
  destruct (desc_in true Hin) as [v Hv].
  now apply (filter_length_pos snd desc (v, true)).
Qed.

Lemma negatives_pos :
  (0 < length (filter (fun p => negb (snd p)) desc))%nat.
Proof.
  unfold both_classes in Hboth. apply andb_true_iff in Hboth as [_ Hf].
  apply existsb_exists in Hf as [b [Hin Hb]]. destruct b; [discriminate|].
  destruct (desc_in false Hin) as [v Hv].
  now apply (filter_length_pos (fun p => negb (snd p)) desc (v, false)).
Qed.

Lemma ys_sorted : StronglySorted (fun a b => b <= a) ys.
Proof.
  unfold ys. apply strongly_sorted_map. unfold desc.
  apply (strongly_sorted_rev score_le). apply stable_sort_sorted.
Qed.

Lemma ys_length : length ys = length y.
Proof. unfold ys. rewrite length_map. apply desc_length. Qed.

Lemma ys_nonincreasing (i j : nat) :
  (i <= j < length ys)%nat -> nth j ys 0 <= nth i ys 0.
Proof.
  intros [Hij Hj]. destruct (Nat.eq_dec i j) as [->|Hne].
  - apply Qle_refl.
  - apply (strongly_sorted_nth (fun a b => b <= a) 0 ys ys_sorted). lia.
Qed.

(** The thresholds before the extra first point go strictly down. *)
Lemma thresholds_sorted :
  StronglySorted (fun a b => b < a)
                 (take 0 ys (dvi ++ [(length ys - 1)%nat])).
Proof.
  assert (Hn : (0 < length ys)%nat).
  { rewrite ys_length. now apply both_classes_nonempty. }
  unfold take. apply strongly_sorted_map.
  assert (Hd : Forall (fun i => (S i < length ys)%nat
                                /\ ~ nth (S i) ys 0 - nth i ys 0 == 0) dvi).
  { eapply Forall_impl; [|apply np_where_spec].
    intros i [Hi Hm]. rewrite length_map, np_diff_Q_length in Hi.
    split; [lia|].
    rewrite (nth_indep _ false (negb (Qeq_bool 0 0))) in Hm
      by now rewrite length_map, np_diff_Q_length.
    rewrite (map_nth (fun d => negb (Qeq_bool d 0))) in Hm.
    rewrite np_diff_Q_nth in Hm by lia.
    apply negb_true_iff in Hm. now apply Qeq_bool_neq in Hm. }
  assert (Hstep : forall i j, (S i < length ys)%nat ->
            ~ nth (S i) ys 0 - nth i ys 0 == 0 ->
            (i < j < length ys)%nat -> nth j ys 0 < nth i ys 0).
  { intros i j Hi Hne Hij.
    pose proof (ys_nonincreasing (S i) j ltac:(lia)) as H1.
    pose proof (ys_nonincreasing i (S i) ltac:(lia)) as H2.
    apply Qlt_leneq. split; [now apply Qle_trans with (nth (S i) ys 0)|].
    intros E. apply Hne.
    assert (E' : nth (S i) ys 0 == nth i ys 0).
    { apply Qle_antisym; [exact H2|]. rewrite <- E. exact H1. }
    rewrite E'. ring. }
  apply strongly_sorted_snoc.
  - pose proof (np_where_sorted
                  (map (fun d => negb (Qeq_bool d 0)) (np_diff_Q ys))) as Hs.
    fold dvi in Hs.
    apply (strongly_sorted_weaken lt); [|exact Hs].
    intros i j Hi Hj Hij. rewrite Forall_forall in Hd.
    destruct (Hd i Hi) as [Hi1 Hi2]. destruct (Hd j Hj) as [Hj1 _].
    apply Hstep; [exact Hi1|exact Hi2|lia].
  - apply Forall_forall. intros i Hi. rewrite Forall_forall in Hd.
    destruct (Hd i Hi) as [Hi1 Hi2]. apply Hstep; [exact Hi1|exact Hi2|lia].
Qed.

(** The shape of the curve before the extra point: the last point counts
    every positive and every negative row. *)
Lemma binary_clf_curve_shape :
  exists fps tps : list Z,
    length fps = length dvi /\ length tps = length dvi /\
    binary_clf_curve y vs
    = (fps ++ [Z.of_nat (length (filter (fun p => negb (snd p)) desc))],
       tps ++ [Z.of_nat (length (filter snd desc))],
       take 0 ys (dvi ++ [(length ys - 1)%nat])).
Proof.
  set (yt := map (fun p : Q * bool => if snd p then 1%Z else 0%Z) desc).
  exists (map2 (fun i tp => (1 + Z.of_nat i - tp)%Z) dvi
               (take 0%Z (np_cumsum yt) dvi)),
         (take 0%Z (np_cumsum yt) dvi).
  split; [rewrite map2_length, take_length; lia|].
  split; [apply take_length|].
  unfold binary_clf_curve. fold desc. fold ys. fold yt. fold dvi.
  assert (Hyt : length yt = length ys).
  { unfold yt, ys. now rewrite !length_map. }
  assert (Hne : desc <> []).
  { pose proof positives_pos as H. intros E. rewrite E in H. simpl in H. lia. }
  assert (Hlast : nth (length yt - 1) (np_cumsum yt) 0%Z
                  = Z.of_nat (length (filter snd desc))).
  { unfold np_cumsum, yt. rewrite length_map.
    now rewrite (cumsum_last desc 0 Hne). }
  rewrite Hyt in *. rewrite take_app. cbn [take map]. rewrite Hlast.
  rewrite map2_snoc by now rewrite take_length.
  repeat f_equal.
  pose proof (filter_length snd desc) as Hsum.
  assert (Hl : length ys = length desc) by (unfold ys; now rewrite length_map).
  assert (Hpos : (0 < length desc)%nat) by (destruct desc; [congruence|simpl; lia]).
  lia.
Qed.
End Curve.

(** ** Selection of the optimal threshold *)

Lemma optimal_idxs_shape (fps tps : list Z) :
  length fps = length tps -> (0 < length fps)%nat ->
  let idxs :=
    if (2 <? length fps)%nat then
      np_where (true :: map2 orb (map nonzero (np_diff (np_diff fps)))
                                 (map nonzero (np_diff (np_diff tps)))
                     ++ [true])
    else seq 0 (length fps) in
  (exists front, idxs = front ++ [(length fps - 1)%nat]) /\
  StronglySorted lt idxs /\
  Forall (fun i => (i < length fps)%nat) idxs.
Proof.
  intros Hlen Hpos. cbn zeta.
  destruct (2 <? length fps)%nat eqn:E.
  - apply Nat.ltb_lt in E.
    set (mid := map2 orb (map nonzero (np_diff (np_diff fps)))
                         (map nonzero (np_diff (np_diff tps)))).
    assert (Hmid : length (true :: mid) = (length fps - 1)%nat).
    { unfold mid. cbn [length].
      rewrite map2_length, !length_map, !np_diff_length. lia. }
    change (true :: mid ++ [true]) with ((true :: mid) ++ [true]).
    split; [|split].
    + rewrite np_where_snoc_true, Hmid. eexists; reflexivity.
    + apply np_where_sorted.
    + eapply Forall_impl; [|apply np_where_spec].
      intros i [Hi _]. rewrite length_app, Hmid in Hi. cbn [length] in Hi. lia.
  - split; [|split].
    + exists (seq 0 (length fps - 1)).
      replace (length fps) with (S (length fps - 1)) at 1 by lia.
      now rewrite seq_S.
    + apply seq_sorted.
    + apply Forall_forall. intros i Hi. apply in_seq in Hi. lia.
Qed.

Lemma inject_Z_pos_neq (z : Z) : (0 < z)%Z -> Qeq_bool (inject_Z z) 0 = false.
Proof.
  intros Hz. unfold Qeq_bool, inject_Z. simpl. apply Z.eqb_neq. lia.
Qed.

(** Rates are rationals when the last count is positive. *)
Lemma rates_finite (counts : list Z) :
  (0 < last counts 0)%Z ->
  rates counts
  = map Num (map (fun c => inject_Z c / inject_Z (last counts 0%Z)) counts).
Proof.
  intros Hpos. unfold rates.
  replace (last counts 0 <=? 0)%Z with false by (symmetry; apply Z.leb_gt; lia).
  rewrite map_map. apply map_ext. intros c. unfold num_div.
  now rewrite (inject_Z_pos_neq _ Hpos).
Qed.

(** ** The order of computed numbers *)

Ltac num_cases :=
  intros; cbn in *; try discriminate; try reflexivity;
  rewrite ?Qle_bool_iff, ?Qltb_lt in *; try lra.

Lemma num_le_refl (x : num) : is_nan x = false -> num_le x x = true.
Proof. destruct x; num_cases. Qed.

Lemma num_not_le_lt (x y : num) :
  is_nan x = false -> is_nan y = false -> num_le x y = false ->
  num_lt y x = true.
Proof.
  destruct x as [a| | |], y as [b| | |]; cbn; try discriminate; try reflexivity.
  intros _ _ H. apply Qltb_lt. apply Qnot_le_lt. intros Hle.
  apply Qle_bool_iff in Hle. congruence.
Qed.

Lemma num_le_lt_trans (x y z : num) :
  num_le x y = true -> num_lt y z = true -> num_lt x z = true.
Proof. destruct x, y, z; num_cases. Qed.

Lemma num_lt_le (x y : num) : num_lt x y = true -> num_le x y = true.
Proof. destruct x, y; num_cases. Qed.

Lemma num_le_not_lt (x y : num) : num_le x y = true -> num_lt y x = false.
Proof.
  destruct x as [a| | |], y as [b| | |]; cbn; try discriminate; try reflexivity.
  intros H. apply Qle_bool_iff in H. apply not_true_is_false. intros Hlt.
  apply Qltb_lt in Hlt. lra.
Qed.

(** The scan returns the first position of the greatest element. *)
Lemma argmax_scan_spec (l pre : list num) (mp : num) (max_ind : nat) :
  Forall (fun x => is_nan x = false) (pre ++ l) ->
  (max_ind < length pre)%nat ->
  nth max_ind pre NaN = mp ->
  (forall j, (j < length pre)%nat -> num_le (nth j pre NaN) mp = true) ->
  (forall j, (j < max_ind)%nat -> num_lt (nth j pre NaN) mp = true) ->
  let k := argmax_scan mp max_ind (length pre) l in
  (k < length (pre ++ l))%nat /\
  (forall j, (j < length (pre ++ l))%nat ->
             num_le (nth j (pre ++ l) NaN) (nth k (pre ++ l) NaN) = true) /\
  (forall j, (j < k)%nat ->
             num_lt (nth j (pre ++ l) NaN) (nth k (pre ++ l) NaN) = true).
Proof.
  revert pre mp max_ind; induction l as [|x l IH];
    intros pre mp max_ind Hnan Hk Hmp Hle Hlt; cbn zeta.
  - cbn [argmax_scan]. rewrite app_nil_r, Hmp. auto.
  - cbn [argmax_scan].
    assert (Happ : pre ++ x :: l = (pre ++ [x]) ++ l)
      by now rewrite <- app_assoc.
    assert (Hlen : length (pre ++ [x]) = S (length pre))
      by (rewrite length_app; cbn [length]; lia).
    assert (Hx : is_nan x = false).
    { rewrite Forall_forall in Hnan. apply Hnan. apply in_or_app.
      right. now left. }
    assert (Hm : is_nan mp = false).
    { rewrite Forall_forall in Hnan. apply Hnan. apply in_or_app.
      left. rewrite <- Hmp. now apply nth_In. }
    rewrite Happ in Hnan |- *.
    destruct (num_le x mp) eqn:E; cbn [negb].
    + rewrite <- Hlen. apply IH.
      * exact Hnan.
      * lia.
      * now rewrite app_nth1.
      * intros j Hj. destruct (Nat.eq_dec j (length pre)) as [->|Hne].
        -- now rewrite nth_snoc.
        -- rewrite app_nth1 by lia. apply Hle. lia.
      * intros j Hj. rewrite app_nth1 by lia. now apply Hlt.
    + rewrite Hx. pose proof (num_not_le_lt x mp Hx Hm E) as Hgt.
      rewrite <- Hlen. apply IH.
      * exact Hnan.
      * lia.
      * apply nth_snoc.
      * intros j Hj. destruct (Nat.eq_dec j (length pre)) as [->|Hne].
        -- rewrite nth_snoc. now apply num_le_refl.
        -- rewrite app_nth1 by lia. apply num_lt_le.
           apply (num_le_lt_trans _ mp); [apply Hle; lia|exact Hgt].
      * intros j Hj. rewrite app_nth1 by lia.
        apply (num_le_lt_trans _ mp); [apply Hle; lia|exact Hgt].
Qed.

Lemma np_argmax_spec (js : list num) :
  js <> [] -> Forall (fun x => is_nan x = false) js ->
  exists k,
    np_argmax js = Ok k /\ (k < length js)%nat /\
    (forall j, (j < length js)%nat ->
               num_le (nth j js NaN) (nth k js NaN) = true) /\
    (forall j, (j < k)%nat -> num_lt (nth j js NaN) (nth k js NaN) = true).
Proof.
  destruct js as [|x js]; [congruence|]. intros _ Hnan.
  assert (Hx : is_nan x = false) by now inversion Hnan.
  eexists. split; [cbn [np_argmax]; rewrite Hx; reflexivity|].
  apply (argmax_scan_spec js [x] x 0).
  - exact Hnan.
  - simpl; lia.
  - reflexivity.
  - intros j Hj. simpl in Hj. replace j with 0%nat by lia.
    now apply num_le_refl.
  - intros j Hj. lia.
Qed.

(** ** Rounding *)

Lemma round_even_bounds (n m : Z) :
  (n / m <= round_even n m <= n / m + 1)%Z.
Proof.
  unfold round_even. destruct (2 * (n mod m) ?= m)%Z; [|lia|lia].
  destruct (Z.even (n / m)); lia.
Qed.

Lemma exponent_unit (a d : Z) : (0 < a <= d)%Z -> (exponent a d <= -52)%Z.
Proof.
  intros H. unfold exponent.
  pose proof (Z.log2_le_mono a d ltac:(lia)) as Hl.
  destruct (scale a d (Z.log2 a - Z.log2 d - 52)) as [n m].
  destruct (2 ^ 52 * m <=? n)%Z; lia.
Qed.

(** A ratio of at most 1 rounds to a rational between 0 and 2. *)
Lemma round64_abs_unit (a d : Z) :
  (0 < a <= d)%Z -> 0 <= round64_abs a d <= 2.
Proof.
  intros H. pose proof (exponent_unit a d H) as He.
  unfold round64_abs, scale.
  replace (0 <=? exponent a d)%Z with false by (symmetry; apply Z.leb_gt; lia).
  set (p := (2 ^ (- exponent a d))%Z).
  assert (Hp : (0 < p)%Z) by (unfold p; apply Z.pow_pos_nonneg; lia).
  pose proof (round_even_bounds (a * p) d) as Hr.
  assert (H0 : (0 <= a * p / d)%Z) by (apply Z.div_pos; nia).
  assert (H1 : (a * p / d <= p)%Z).
  { apply Z.div_le_upper_bound; [lia|]. nia. }
  unfold Qle. cbn [Qnum Qden]. rewrite Z2Pos.id by exact Hp. split; lia.
Qed.

Lemma two_le_max_float : 2 <= max_float.
Proof. apply Qle_bool_iff. vm_compute. reflexivity. Qed.

Lemma f64_unit (q : Q) : 0 <= q <= 1 -> exists r, f64 (Num q) = Num r.
Proof.
  intros [H0 H1]. unfold f64.
  assert (Hr : 0 <= round64 q <= 2).
  { destruct q as [n d]. unfold round64. cbn [Qnum Qden].
    unfold Qle in H0, H1. cbn [Qnum Qden] in H0, H1.
    destruct n as [|p|p]; [split; unfold Qle; simpl; lia| |lia].
    apply round64_abs_unit. lia. }
  assert (Hb : Qle_bool (Qabs (round64 q)) max_float = true).
  { apply Qle_bool_iff. rewrite Qabs_pos by apply Hr.
    apply Qle_trans with 2; [apply Hr|apply two_le_max_float]. }
  rewrite Hb. eexists; reflexivity.
Qed.

Lemma f64_not_nan (q : Q) : is_nan (f64 (Num q)) = false.
Proof.
  unfold f64. destruct (Qle_bool (Qabs (round64 q)) max_float); [reflexivity|].
  now destruct (Qle_bool 0 (round64 q)).
Qed.

(** ** Youden's J *)

Lemma youden_length (fpr tpr : list num) :
  length (youden fpr tpr) = Nat.min (length tpr) (length fpr).
Proof. unfold youden. apply map2_length. Qed.

Lemma youden_nth (fpr tpr : list num) (j : nat) :
  (j < length fpr)%nat -> (j < length tpr)%nat ->
  nth j (youden fpr tpr) NaN
  = f64_sub (f64 (nth j tpr NaN)) (f64 (nth j fpr NaN)).
Proof.
  unfold youden. revert fpr j; induction tpr as [|t tpr IH];
    intros [|f fpr] j Hf Ht; cbn [length] in *; try lia.
  destruct j as [|j]; [reflexivity|]. cbn [map2 nth]. apply IH; lia.
Qed.

(** With rates between 0 and 1 no entry of J is NaN. *)
Lemma youden_defined (fq tq : list Q) :
  Forall (fun q => 0 <= q <= 1) fq -> Forall (fun q => 0 <= q <= 1) tq ->
  Forall (fun x => is_nan x = false) (youden (map Num fq) (map Num tq)).
Proof.
  unfold youden. intros Hf. revert tq.
  induction Hf as [|f fq Hf0 _ IH]; intros tq Ht.
  - destruct tq; constructor.
  - destruct Ht as [|t tq Ht0 Ht]; [constructor|].
    cbn [map map2]. constructor; [|now apply IH].
    destruct (f64_unit t Ht0) as [rt ->]. destruct (f64_unit f Hf0) as [rf ->].
    unfold f64_sub. cbn [num_sub num_neg num_add]. apply f64_not_nan.
Qed.

Lemma descending_thresholds (ths : list Q) :
  StronglySorted (fun a b => b < a) ths -> descending (PInf :: map Num ths).
Proof.
  intros Hs i j [Hij Hj]. cbn [length] in Hj. rewrite length_map in Hj.
  destruct j as [|j]; [lia|]. cbn [nth].
  rewrite (nth_indep _ NaN (Num 0)) by (rewrite length_map; lia).
  rewrite (map_nth Num).
  destruct i as [|i]; cbn [nth]; [reflexivity|].
  rewrite (nth_indep _ NaN (Num 0)) by (rewrite length_map; lia).
  rewrite (map_nth Num). cbn [num_lt]. apply Qltb_lt.
  apply (strongly_sorted_nth (fun a b => b < a) 0 ths Hs). lia.
Qed.

(** ** The counts of the curve *)

Lemma cumsum_nth (l : list (Q * bool)) (acc : Z) (i : nat) :
  (i < length l)%nat ->
  nth i (cumsum_from acc
           (map (fun p : Q * bool => if snd p then 1%Z else 0%Z) l)) 0%Z
  = (acc + Z.of_nat (length (filter snd (firstn (S i) l))))%Z.
Proof.
  revert acc i; induction l as [|p l IH]; intros acc i Hi; cbn [length] in Hi;
    [lia|].
  cbn [map cumsum_from]. destruct i as [|i].
  - cbn [nth firstn filter]. destruct (snd p); cbn [length]; lia.
  - cbn [nth]. rewrite IH by lia.
    change (firstn (S (S i)) (p :: l)) with (p :: firstn (S i) l).
    cbn [filter]. destruct (snd p); cbn [length]; lia.
Qed.

Lemma map2_take (g : nat -> Z -> Z) (arr : list Z) (idxs : list nat) :
  map2 g idxs (take 0%Z arr idxs) = map (fun i => g i (nth i arr 0%Z)) idxs.
Proof.
  unfold take. induction idxs as [|i idxs IH]; [reflexivity|].
  cbn [map map2]. now rewrite IH.
Qed.

Lemma filter_firstn_le {A : Type} (f : A -> bool) (k : nat) (l : list A) :
  (length (filter f (firstn k l)) <= length (filter f l))%nat.
Proof.
  revert k; induction l as [|x l IH]; intros [|k]; cbn [firstn filter length];
    try lia.
  specialize (IH k). destruct (f x); cbn [length]; lia.
Qed.

Lemma take_forall {A : Type} (R : A -> Prop) (d : A) (arr : list A)
      (idxs : list nat) :
  Forall R arr -> Forall (fun i => (i < length arr)%nat) idxs ->
  Forall R (take d arr idxs).
Proof.
  intros Harr Hidx. unfold take. apply Forall_forall. intros x Hx.
  apply in_map_iff in Hx as [i [<- Hi]]. rewrite Forall_forall in *.
  apply Harr. apply nth_In. now apply Hidx.
Qed.

(** Every count of the curve lies between 0 and the number of rows of its
    class. *)
Lemma binary_clf_curve_bounds (y : list bool) (vs : list Q) :
  length vs = length y -> both_classes y = true ->
  let desc := rev (stable_sort (combine vs y)) in
  Forall (fun c => (0 <= c
                    <= Z.of_nat (length (filter (fun p => negb (snd p)) desc)))%Z)
         (fst (fst (binary_clf_curve y vs))) /\
  Forall (fun c => (0 <= c <= Z.of_nat (length (filter snd desc)))%Z)
         (snd (fst (binary_clf_curve y vs))).
Proof.
  intros Hlen Hb desc. unfold binary_clf_curve. fold desc.
  set (ys := map fst desc).
  set (yt := map (fun p : Q * bool => if snd p then 1%Z else 0%Z) desc).
  set (dvi := np_where (map (fun d => negb (Qeq_bool d 0)) (np_diff_Q ys))).
  cbn [fst snd]. rewrite map2_take.
  assert (Hn : length desc = length y) by now apply desc_length.
  assert (Hpos : (0 < length desc)%nat).
  { rewrite Hn. now apply both_classes_nonempty. }
  assert (Hyt : length yt = length desc) by (unfold yt; now rewrite length_map).
  assert (Hys : length ys = length desc) by (unfold ys; now rewrite length_map).
  assert (Hidx : Forall (fun i => (i < length desc)%nat)
                        (dvi ++ [(length yt - 1)%nat])).
  { apply Forall_app. split.
    - eapply Forall_impl; [|apply np_where_spec]. intros i [Hi _].
      rewrite length_map, np_diff_Q_length in Hi. lia.
    - constructor; [lia|constructor]. }
  assert (Hcount : forall i, (i < length desc)%nat ->
            let pos := length (filter snd (firstn (S i) desc)) in
            let neg := length (filter (fun p => negb (snd p)) (firstn (S i) desc)) in
            nth i (np_cumsum yt) 0%Z = Z.of_nat pos /\
            (1 + Z.of_nat i - Z.of_nat pos)%Z = Z.of_nat neg).
  { intros i Hi pos neg. unfold np_cumsum, yt. rewrite cumsum_nth by exact Hi.
    split; [reflexivity|].
    pose proof (filter_length snd (firstn (S i) desc)) as Hsum.
    rewrite length_firstn in Hsum. unfold pos, neg. lia. }
  split.
  - apply Forall_forall. intros c Hc. apply in_map_iff in Hc as [i [<- Hi]].
    rewrite Forall_forall in Hidx. specialize (Hidx i Hi).
    destruct (Hcount i Hidx) as [E1 E2]. rewrite E1, E2.
    pose proof (filter_firstn_le (fun p : Q * bool => negb (snd p)) (S i) desc).
    lia.
  - apply take_forall.
    + apply Forall_forall. intros c Hc.
      apply (In_nth _ _ 0%Z) in Hc as [i [Hi <-]].
      assert (Hi' : (i < length desc)%nat).
      { unfold np_cumsum in Hi. rewrite <- Hyt. clear - Hi.
        revert Hi. generalize 0%Z at 1. generalize yt. intros l.
        revert i; induction l as [|x l IH]; intros i z Hi; cbn in Hi; [lia|].
        destruct i as [|i]; cbn [length]; [lia|].
        specialize (IH i (z + x)%Z). lia. }
      destruct (Hcount i Hi') as [E1 _]. rewrite E1.
      pose proof (filter_firstn_le (@snd Q bool) (S i) desc). lia.
    + eapply Forall_impl; [|exact Hidx]. intros i Hi. cbv beta in *.
      assert (Hl : length (np_cumsum yt) = length yt).
      { unfold np_cumsum. generalize 0%Z. generalize yt. intros l.
        induction l as [|x l IH]; intros z; cbn; [reflexivity|].
        now rewrite IH. }
      rewrite Hl, Hyt. exact Hi.
Qed.

Lemma rate_unit (c total : Z) :
  (0 <= c <= total)%Z -> (0 < total)%Z ->
  0 <= inject_Z c / inject_Z total <= 1.
Proof.
  intros Hc Ht.
  assert (H0 : 0 < inject_Z total) by (unfold Qlt; simpl; lia).
  split.
  - apply Qle_shift_div_l; [exact H0|]. rewrite Qmult_0_l.
    unfold Qle; simpl; lia.
  - apply Qle_shift_div_r; [exact H0|]. rewrite Qmult_1_l.
    rewrite <- Zle_Qle. lia.
Qed.

(** The curve of [roc_curve] when both outcomes occur: rates between 0 and
    1, one per threshold, and thresholds that start at infinity and go
    strictly down. *)
Lemma roc_curve_shape (y : list bool) (s : list (option Q)) (vs : list Q) :
  length s = length y -> both_classes y = true -> check_array s = Ok vs ->
  exists (fq tq ths : list Q),
    roc_curve y s = Ok (map Num fq, map Num tq, PInf :: map Num ths) /\
    length fq = S (length ths) /\ length tq = S (length ths) /\
    StronglySorted (fun a b => b < a) ths /\
    Forall (fun q => 0 <= q <= 1) fq /\ Forall (fun q => 0 <= q <= 1) tq.
Proof.
  intros Hlen Hboth Hvs.
  destruct (check_array_ok s vs Hvs) as [_ [Hvl _]].
  assert (Hlen' : length vs = length y) by lia.
  destruct (binary_clf_curve_shape y vs Hlen' Hboth) as [F [T [HF [HT Hcurve]]]].
  pose proof (thresholds_sorted y vs Hlen' Hboth) as Hsorted.
  pose proof (positives_pos y vs Hlen' Hboth) as HP.
  pose proof (negatives_pos y vs Hlen' Hboth) as HN.
  pose proof (binary_clf_curve_bounds y vs Hlen' Hboth) as Hcounts.
  cbv zeta in Hcounts. rewrite Hcurve in Hcounts. cbn [fst snd] in Hcounts.
  destruct Hcounts as [HcF HcT].
  unfold roc_curve. rewrite Hvs. cbn [bind]. rewrite Hcurve.
  set (desc := rev (stable_sort (combine vs y))) in *.
  set (N := Z.of_nat (length (filter (fun p => negb (snd p)) desc))) in *.
  set (P := Z.of_nat (length (filter snd desc))) in *.
  set (ys := map fst desc) in *.
  set (dvi := np_where (map (fun d => negb (Qeq_bool d 0)) (np_diff_Q ys))) in *.
  set (base := take 0 ys (dvi ++ [(length ys - 1)%nat])) in *.
  assert (HlF : length (F ++ [N]) = S (length dvi))
    by (rewrite length_app; cbn [length]; lia).
  assert (HlT : length (T ++ [P]) = S (length dvi))
    by (rewrite length_app; cbn [length]; lia).
  assert (Hlb : length base = S (length dvi)).
  { unfold base. rewrite take_length, length_app. cbn [length]. lia. }
  destruct (optimal_idxs_shape (F ++ [N]) (T ++ [P])) as [[front Hfront] [Hs Hbound]];
    [lia|lia|].
  set (idxs := if (2 <? length (F ++ [N]))%nat then _ else _) in *.
  assert (HtF : take 0%Z (F ++ [N]) idxs = take 0%Z (F ++ [N]) front ++ [N]).
  { rewrite Hfront, take_app. cbn [take map]. rewrite HlF.
    replace (S (length dvi) - 1)%nat with (length F) by lia.
    now rewrite nth_snoc. }
  assert (HtT : take 0%Z (T ++ [P]) idxs = take 0%Z (T ++ [P]) front ++ [P]).
  { rewrite Hfront, take_app. cbn [take map]. rewrite HlF.
    replace (S (length dvi) - 1)%nat with (length T) by lia.
    now rewrite nth_snoc. }
  assert (HrF : rates (0%Z :: take 0%Z (F ++ [N]) idxs)
                = map Num (map (fun c => inject_Z c / inject_Z N)
                               (0%Z :: take 0%Z (F ++ [N]) idxs))).
  { rewrite rates_finite; rewrite HtF, (last_cons_snoc 0%Z 0%Z);
      [reflexivity|unfold N; lia]. }
  assert (HrT : rates (0%Z :: take 0%Z (T ++ [P]) idxs)
                = map Num (map (fun c => inject_Z c / inject_Z P)
                               (0%Z :: take 0%Z (T ++ [P]) idxs))).
  { rewrite rates_finite; rewrite HtT, (last_cons_snoc 0%Z 0%Z);
      [reflexivity|unfold P; lia]. }
  rewrite HrF, HrT.
  eexists _, _, (take 0 base idxs). split; [reflexivity|].
  split; [rewrite !length_map; cbn [length]; now rewrite !take_length|].
  split; [rewrite !length_map; cbn [length]; now rewrite !take_length|].
  split.
  { apply take_sorted; [exact Hsorted|exact Hs|].
    eapply Forall_impl; [|exact Hbound]. intros i Hi. cbv beta in Hi.
    rewrite Hlb. rewrite HlF in Hi. exact Hi. }
  assert (HbT : Forall (fun i => (i < length (T ++ [P]))%nat) idxs).
  { eapply Forall_impl; [|exact Hbound]. intros i Hi. cbv beta in Hi.
    rewrite HlT. rewrite HlF in Hi. exact Hi. }
  split.
  - apply Forall_forall. intros q Hq. apply in_map_iff in Hq as [c [<- Hc]].
    apply rate_unit; [|unfold N; lia].
    destruct Hc as [<-|Hc]; [unfold N; lia|].
    pose proof (take_forall _ 0%Z _ idxs HcF Hbound) as Hall.
    rewrite Forall_forall in Hall. now apply Hall.
  - apply Forall_forall. intros q Hq. apply in_map_iff in Hq as [c [<- Hc]].
    apply rate_unit; [|unfold P; lia].
    destruct Hc as [<-|Hc]; [unfold P; lia|].
    pose proof (take_forall _ 0%Z _ idxs HcT HbT) as Hall.
    rewrite Forall_forall in Hall. now apply Hall.
Qed.

(** C4: the optimal threshold is taken from the ROC curve, whose thresholds
    go strictly down, at the first position where Youden's J, the float64
    difference TPR - FPR of line 98, is greatest; among the positions that
    attain the greatest J it is the one with the highest threshold. *)
Theorem optimal_threshold_first_max (df : DataFrame) (a : num) :
  roc_auc_score (outcomes df) (get_col col_ewi df) = Ok a ->
  exists fpr tpr thresholds k,
    roc_curve (outcomes df) (get_col col_ewi df) = Ok (fpr, tpr, thresholds) /\
    length fpr = length thresholds /\ length tpr = length thresholds /\
    descending thresholds /\
    np_argmax (youden fpr tpr) = Ok k /\
    (k < length thresholds)%nat /\
    find_optimal_threshold df = Ok (nth k thresholds NaN) /\
    let J := fun j => f64_sub (f64 (nth j tpr NaN)) (f64 (nth j fpr NaN)) in
    (forall j, (j < length thresholds)%nat ->
               nth j (youden fpr tpr) NaN = J j) /\
    (forall j, (j < length thresholds)%nat ->
               exists t f, f64 (nth j tpr NaN) = Num t /\
                           f64 (nth j fpr NaN) = Num f /\
                           J j = f64 (Num (t - f))) /\
    (forall j, (j < length thresholds)%nat -> num_le (J j) (J k) = true) /\
    (forall j, (j < k)%nat -> num_lt (J j) (J k) = true) /\
    (forall j, (j < length thresholds)%nat -> j <> k ->
               num_le (J k) (J j) = true ->
               num_lt (nth j thresholds NaN) (nth k thresholds NaN) = true).
Proof.
  intros Hauc.
  destruct (roc_auc_score_ok_inv _ _ _ Hauc) as [Hboth [vs Hvs]].
  assert (Hlen : length (get_col col_ewi df) = length (outcomes df))
    by (unfold get_col, outcomes; now rewrite !length_map).
  destruct (roc_curve_shape _ _ vs Hlen Hboth Hvs)
    as [fq [tq [ths [Hcurve [Hlf [Hlt [Hsorted [Hfu Htu]]]]]]]].
  pose proof (descending_thresholds ths Hsorted) as Hdesc.
  set (js := youden (map Num fq) (map Num tq)).
  assert (Hjl : length js = S (length ths)).
  { unfold js. rewrite youden_length, !length_map. lia. }
  destruct (np_argmax_spec js) as [k [Hk [Hkl [Hmax Hfirst]]]].
  { intros E. rewrite E in Hjl. discriminate. }
  { now apply youden_defined. }
  assert (HJ : forall j, (j < S (length ths))%nat ->
             nth j js NaN
             = f64_sub (f64 (nth j (map Num tq) NaN))
                       (f64 (nth j (map Num fq) NaN))).
  { intros j Hj. unfold js. apply youden_nth; rewrite length_map; lia. }
  exists (map Num fq), (map Num tq), (PInf :: map Num ths), k.
  fold js. cbn [length]. rewrite !length_map.
  split; [exact Hcurve|]. split; [exact Hlf|]. split; [exact Hlt|].
  split; [exact Hdesc|]. split; [exact Hk|]. split; [lia|].
  split.
  { unfold find_optimal_threshold. rewrite Hcurve. cbn [bind].
    fold js. rewrite Hk. reflexivity. }
  cbn zeta.
  split; [exact HJ|].
  split.
  { intros j Hj.
    rewrite !(nth_indep _ NaN (Num 0)) by (rewrite length_map; lia).
    rewrite !(map_nth Num).
    destruct (f64_unit (nth j tq 0)) as [t Et].
    { rewrite Forall_forall in Htu. apply Htu. apply nth_In. lia. }
    destruct (f64_unit (nth j fq 0)) as [f Ef].
    { rewrite Forall_forall in Hfu. apply Hfu. apply nth_In. lia. }
    exists t, f. rewrite Et, Ef. repeat split. }
  split.
  { intros j Hj. rewrite <- !HJ by lia. apply Hmax. lia. }
  split.
  { intros j Hj. rewrite <- !HJ by lia. now apply Hfirst. }
  intros j Hj Hne Htie.
  assert (Hkj : (k < j)%nat).
  { destruct (Nat.lt_trichotomy j k) as [Hjk|[->|Hjk]]; [|congruence|exact Hjk].
    exfalso. rewrite <- !HJ in Htie by lia.
    apply num_le_not_lt in Htie. rewrite (Hfirst j Hjk) in Htie. discriminate. }
  apply Hdesc. cbn [length]. rewrite length_map. lia.
Qed.

Lemma optimal_threshold_first_max_witness :
  exists fpr tpr thresholds k,
    roc_curve (outcomes frame_separated) (get_col col_ewi frame_separated)
    = Ok (fpr, tpr, thresholds) /\
    descending thresholds /\
    find_optimal_threshold frame_separated = Ok (nth k thresholds NaN).
Proof.
  assert (E : exists a, roc_auc_score (outcomes frame_separated)
                                      (get_col col_ewi frame_separated) = Ok a).
  { eexists. vm_compute. reflexivity. }
  destruct E as [a E].
  destruct (optimal_threshold_first_max frame_separated a E)
    as [fpr [tpr [thresholds [k [H1 [_ [_ [H2 [_ [_ [H3 _]]]]]]]]]]].
  exists fpr, tpr, thresholds, k.
  split; [exact H1|]. split; [exact H2|exact H3].
Defined.

(** Rounding can separate two positions whose exact differences are equal:
    with three rows of each class, J is 2/3 - 0 at threshold 0.8 and
    1 - 1/3 at threshold 0.6; the float64 of the second is the greater, and
    the threshold 0.6 is chosen. *)
Lemma rounding_separates_equal_differences :
  2 # 3 == 1 - (1 # 3) /\
  num_lt (f64_sub (f64 (Num (2 # 3))) (f64 (Num 0)))
         (f64_sub (f64 (Num 1)) (f64 (Num (1 # 3)))) = true /\
  find_optimal_threshold frame_rounding = Ok (Num 0.6).
Proof.
  split; [reflexivity|]. split; vm_compute; reflexivity.
Qed.

(** * Further properties of the script *)

(** ** The loader *)

Lemma mean_skipna_none (l : list (option Q)) :
  mean_skipna l = None <-> existsb notna l = false.
Proof.
  assert (Hp : present l = [] <-> existsb notna l = false).
  { induction l as [|[v|] l IH]; simpl.
    - tauto.
    - split; discriminate.
    - exact IH. }
  pose proof (mean_skipna_spec l) as Hm.
  destruct (present l) as [|v vs].
  - rewrite Hm. split; [intros _; now apply Hp|reflexivity].
  - destruct Hm as [w [Hw _]]. rewrite Hw. split; [discriminate|].
    intros H. apply Hp in H. discriminate.
Qed.

Lemma imputed_ewi (r : row) :
  ewi (set_ewi r (fillna (ewi r) (row_mean component_cols_for_ewi r)))
  = match ewi r with
    | Some v => Some v
    | None => mean_skipna (named_components r)
    end.
Proof. cbn [set_ewi ewi]. now destruct (ewi r). Qed.

Lemma isna_sum_rows (df : DataFrame) :
  isna_sum (get_col col_ewi df) = count_rows (fun r => isna (ewi r)) df.
Proof.
  unfold isna_sum, get_col, count_rows.
  induction df as [|r df IH]; [reflexivity|].
  cbn [map filter cell]. destruct (isna (ewi r)); cbn [length]; now rewrite IH.
Qed.

Lemma still_missing_rows (df : DataFrame) :
  count_rows (fun r => isna (ewi r)) (impute df)
  = count_rows (fun r => isna (ewi r) && negb (has_component r)) df.
Proof.
  rewrite impute_rowwise. unfold count_rows.
  induction df as [|r df IH]; [reflexivity|].
  cbn [map filter]. rewrite imputed_ewi.
  assert (E : isna (match ewi r with
                    | Some v => Some v
                    | None => mean_skipna (named_components r)
                    end)
              = isna (ewi r) && negb (has_component r)).
  { destruct (ewi r); [reflexivity|]. cbn [isna andb]. unfold has_component.
    destruct (mean_skipna (named_components r)) eqn:Em.
    - destruct (existsb notna (named_components r)) eqn:Ee; [reflexivity|].
      apply mean_skipna_none in Ee. congruence.
    - apply mean_skipna_none in Em. now rewrite Em. }
  rewrite E.
  destruct (isna (ewi r) && negb (has_component r)); cbn [length]; now rewrite IH.
Qed.

Lemma missing_split (df : DataFrame) :
  count_rows (fun r => isna (ewi r)) df
  = (count_rows (fun r => isna (ewi r) && has_component r) df
     + count_rows (fun r => isna (ewi r) && negb (has_component r)) df)%nat.
Proof.
  unfold count_rows. induction df as [|r df IH]; [reflexivity|].
  cbn [filter]. destruct (isna (ewi r)), (has_component r);
    cbn [andb negb length]; lia.
Qed.

(** X1: the line printed by the loader.  It appears exactly when some EWI is
    missing; its second number is the number of rows without an EWI, its
    first the number of those rows that have at least one component, and the
    difference is the number of rows still without an EWI afterwards. *)
Theorem impute_report_counts (df : DataFrame) :
  match impute_report df with
  | Some (filled, missing_before) =>
      (0 < missing_before)%nat /\
      missing_before = count_rows (fun r => isna (ewi r)) df /\
      filled = count_rows (fun r => isna (ewi r) && has_component r) df /\
      (filled <= missing_before)%nat /\
      (missing_before - filled)%nat
      = count_rows (fun r => isna (ewi r)) (impute df)
  | None =>
      count_rows (fun r => isna (ewi r)) df = 0%nat /\ impute df = df
  end.
Proof.
  unfold impute_report.
  destruct (0 <? isna_sum (get_col col_ewi df))%nat eqn:E.
  - apply Nat.ltb_lt in E. rewrite !isna_sum_rows in *.
    rewrite still_missing_rows. pose proof (missing_split df) as Hs.
    repeat split; try lia.
  - apply Nat.ltb_ge in E. split.
    + rewrite isna_sum_rows in E. lia.
    + unfold impute.
      replace (0 <? isna_sum (get_col col_ewi df))%nat with false; [reflexivity|].
      symmetry. apply Nat.ltb_ge. exact E.
Qed.

Lemma set_ewi_twice (r : row) (a b : option Q) :
  set_ewi (set_ewi r a) b = set_ewi r b.
Proof. reflexivity. Qed.

Lemma impute_fixed_point (df : DataFrame) : impute (impute df) = impute df.
Proof.
  rewrite (impute_rowwise (impute df)), impute_rowwise, map_map.
  apply map_ext. intros r. rewrite set_ewi_twice.
  f_equal. rewrite imputed_ewi.
  change (row_mean component_cols_for_ewi
            (set_ewi r (fillna (ewi r) (row_mean component_cols_for_ewi r))))
    with (mean_skipna (named_components r)).
  rewrite row_mean_named.
  destruct (ewi r); [reflexivity|]. cbn [fillna].
  now destruct (mean_skipna (named_components r)).
Qed.

(** X2: imputing twice changes nothing more: the filled frame is a fixed
    point of the loader, and the loader prints no line for it unless a row
    lacks both its EWI and all six components. *)
Theorem impute_idempotent (df : DataFrame) :
  impute (impute df) = impute df /\
  (impute_report (impute df) = None <->
   forall r, In r df -> ewi r = None -> has_component r = true).
Proof.
  split; [apply impute_fixed_point|].
  unfold impute_report. rewrite isna_sum_rows, still_missing_rows. split.
  - intros H r Hin He.
    destruct (0 <? count_rows (fun r0 => isna (ewi r0) && negb (has_component r0)) df)%nat
      eqn:E; [discriminate|].
    apply Nat.ltb_ge in E.
    destruct (has_component r) eqn:Hc; [reflexivity|]. exfalso.
    assert (Hpos : (0 < count_rows (fun r0 => isna (ewi r0)
                                              && negb (has_component r0)) df)%nat).
    { apply (filter_length_pos _ df r Hin). now rewrite He, Hc. }
    lia.
  - intros H.
    replace (count_rows (fun r => isna (ewi r) && negb (has_component r)) df)
      with 0%nat; [reflexivity|].
    symmetry. unfold count_rows.
    assert (E : forall r, In r df ->
                  isna (ewi r) && negb (has_component r) = false).
    { intros r Hin. destruct (ewi r) eqn:He; [reflexivity|].
      now rewrite (H r Hin He). }
    clear H. induction df as [|r df IH]; [reflexivity|].
    cbn [filter]. rewrite (E r (or_introl eq_refl)).
    apply IH. intros x Hx. apply E. now right.
Qed.

(** ** Labels and verdicts *)

Lemma Qltb_cases (x y : Q) :
  (Qltb x y = true /\ x < y) \/ (Qltb x y = false /\ y <= x).
Proof.
  destruct (Qltb x y) eqn:E.
  - left. split; [reflexivity|now apply Qltb_lt].
  - right. split; [reflexivity|]. apply Qnot_lt_le. intros H.
    apply Qltb_lt in H. congruence.
Qed.

Ltac by_Qltb x y :=
  let E := fresh "E" in
  let H := fresh "H" in
  destruct (Qltb_cases x y) as [[E H]|[E H]]; rewrite ?E in *.

(** X4: the four labels of the AUC have strict lower cut-offs: EXCELLENT
    above 0.8, GOOD above 0.7 up to 0.8, FAIR above 0.6 up to 0.7, POOR up to
    0.6; an undefined AUC is labelled POOR. *)
Theorem interpretation_tiers (a : Q) :
  (interpretation (Num a) = "EXCELLENT - Strong predictive power"%string
   <-> 0.8 < a) /\
  (interpretation (Num a) = "GOOD - Useful for operational decisions"%string
   <-> 0.7 < a /\ a <= 0.8) /\
  (interpretation (Num a)
   = "FAIR - Better than random, needs improvement"%string
   <-> 0.6 < a /\ a <= 0.7) /\
  (interpretation (Num a) = "POOR - Model needs major revision"%string
   <-> a <= 0.6) /\
  interpretation NaN = "POOR - Model needs major revision"%string.
Proof.
  unfold interpretation. cbn [num_gt num_lt].
  by_Qltb 0.8 a; by_Qltb 0.7 a; by_Qltb 0.6 a;
    repeat split; intros; try discriminate; try reflexivity; try lra.
Qed.

Lemma label_and_verdict (a r : num) :
  (recommend a r = DEPLOY ->
   interpretation a = "EXCELLENT - Strong predictive power"%string \/
   interpretation a = "GOOD - Useful for operational decisions"%string) /\
  (recommend a r = PILOT ->
   interpretation a <> "POOR - Model needs major revision"%string) /\
  (interpretation a = "POOR - Model needs major revision"%string ->
   recommend a r = IMPROVE).
Proof.
  unfold recommend, interpretation.
  destruct a as [q| | |]; cbn [num_gt num_lt andb].
  - by_Qltb 0.8 q; by_Qltb 0.75 q; by_Qltb 0.7 q; by_Qltb 0.65 q;
      by_Qltb 0.6 q; cbn [andb]; try lra;
      destruct (num_lt (Num 0.7) r); cbn [andb];
      repeat split; intros; try discriminate; try reflexivity; auto.
  - repeat split; intros; try discriminate; reflexivity.
  - destruct (num_lt (Num 0.7) r); cbn [andb];
      repeat split; intros; try discriminate; auto.
  - repeat split; intros; try discriminate; reflexivity.
Qed.

Lemma run_ok_inv (csv : DataFrame) (rep : report) :
  run csv = Ok rep ->
  let df := impute csv in
  roc_auc_score (outcomes df) (get_col col_ewi df) = Ok (r_auc rep) /\
  sweep df = Ok (r_sweep rep) /\
  find_optimal_threshold df = Ok (r_optimal_threshold rep) /\
  component_analysis df = Ok (r_components rep) /\
  r_zones rep = zone_validation df /\
  summarize df (r_optimal_threshold rep) = Ok (r_summary rep) /\
  r_interpretation rep = interpretation (r_auc rep) /\
  r_verdict rep = recommend (r_auc rep) (s_recall (r_summary rep)).
Proof.
  intros Hrun df. unfold run in Hrun. fold df in Hrun.
  apply bind_ok_inv in Hrun as [a [Hauc Hrun]].
  apply bind_ok_inv in Hrun as [table [Hsweep Hrun]].
  apply bind_ok_inv in Hrun as [opt [Hopt Hrun]].
  apply bind_ok_inv in Hrun as [comps [Hcomps Hrun]].
  apply bind_ok_inv in Hrun as [s [Hsum Hrun]].
  injection Hrun as <-. cbn. repeat split; assumption.
Qed.

(** X5: the label of the AUC and the verdict of a completed run agree:
    DEPLOY comes only with the label EXCELLENT or GOOD, PILOT never with the
    label POOR, and the label POOR always comes with IMPROVE. *)
Theorem label_agrees_with_verdict (csv : DataFrame) (rep : report) :
  run csv = Ok rep ->
  (r_verdict rep = DEPLOY ->
   r_interpretation rep = "EXCELLENT - Strong predictive power"%string \/
   r_interpretation rep = "GOOD - Useful for operational decisions"%string) /\
  (r_verdict rep = PILOT ->
   r_interpretation rep <> "POOR - Model needs major revision"%string) /\
  (r_interpretation rep = "POOR - Model needs major revision"%string ->
   r_verdict rep = IMPROVE).
Proof.
  intros Hrun. apply run_ok_inv in Hrun. cbv zeta in Hrun.
  destruct Hrun as [_ [_ [_ [_ [_ [_ [Hi Hv]]]]]]]. rewrite Hi, Hv.
  apply label_and_verdict.
Qed.

Lemma label_agrees_with_verdict_witness :
  exists rep, run frame_separated = Ok rep /\ r_verdict rep = DEPLOY /\
    r_interpretation rep = "EXCELLENT - Strong predictive power"%string.
Proof.
  assert (E : exists rep, run frame_separated = Ok rep /\ r_verdict rep = DEPLOY
                          /\ r_interpretation rep
                             = "EXCELLENT - Strong predictive power"%string).
  { eexists. split; [vm_compute; reflexivity|]. split; reflexivity. }
  destruct E as [rep [E [V L]]]. exists rep.
  split; [exact E|]. split; [exact V|].
  destruct (proj1 (label_agrees_with_verdict frame_separated rep E) V)
    as [H|H]; [exact H|exact L].
Defined.

(** X6: the verdict is monotone: a higher AUC together with a higher recall
    never lowers it (IMPROVE below PILOT below DEPLOY). *)
Theorem recommend_monotone (a a' r r' : Q) :
  a <= a' -> r <= r' ->
  (verdict_rank (recommend (Num a) (Num r))
   <= verdict_rank (recommend (Num a') (Num r')))%nat.
Proof.
  intros Ha Hr. unfold recommend. cbn [num_gt num_lt].
  by_Qltb 0.75 a; by_Qltb 0.7 r; by_Qltb 0.65 a;
    by_Qltb 0.75 a'; by_Qltb 0.7 r'; by_Qltb 0.65 a';
    cbn [andb verdict_rank]; try lia; lra.
Qed.

Lemma recommend_monotone_witness :
  (verdict_rank (recommend (Num 0.7) (Num 0.5))
   <= verdict_rank (recommend (Num 0.8) (Num 0.9)))%nat.
Proof.
  apply recommend_monotone; unfold Qle; simpl; lia.
Defined.

(** ** Confusion counts at any threshold *)

Lemma existsb_eqb_false (l : list bool) :
  existsb (Bool.eqb false) l = existsb negb l.
Proof. induction l as [|[] l IH]; simpl; auto. Qed.

Lemma existsb_eqb_true (l : list bool) :
  existsb (Bool.eqb true) l = existsb (fun b => b) l.
Proof. induction l as [|[] l IH]; simpl; auto. Qed.

Lemma confusion_matrix_rows (df : DataFrame) (th : num) :
  unique_labels (outcomes df) (predict df th) = [false; true] ->
  confusion_counts df th = Ok (row_counts df th).
Proof.
  intros Hl. unfold confusion_counts, confusion_matrix. rewrite Hl.
  rewrite predict_rows. unfold outcomes. cbn [map ravel concat app unpack4].
  rewrite !count_pairs_map. unfold row_counts, count_rows.
  apply f_equal.
  apply f_equal2; [apply f_equal2; [apply f_equal2|]|];
    apply filter_ext_length; intros r;
    destruct (conflict_occurred r), (num_ge (to_num (ewi r)) th); reflexivity.
Qed.

Lemma confusion_counts_cases (df : DataFrame) (th : num) :
  confusion_counts df th
  = if both_labels df th then Ok (row_counts df th)
    else Raise (ValueError "not enough values to unpack (expected 4)").
Proof.
  unfold both_labels.
  destruct (existsb negb (outcomes df ++ predict df th)) eqn:Ef;
    destruct (existsb (fun b => b) (outcomes df ++ predict df th)) eqn:Et;
    cbn [andb].
  - apply confusion_matrix_rows. unfold unique_labels. cbn [filter].
    now rewrite existsb_eqb_false, existsb_eqb_true, Ef, Et.
  - unfold confusion_counts, confusion_matrix, unique_labels. cbn [filter].
    now rewrite existsb_eqb_false, existsb_eqb_true, Ef, Et.
  - unfold confusion_counts, confusion_matrix, unique_labels. cbn [filter].
    now rewrite existsb_eqb_false, existsb_eqb_true, Ef, Et.
  - unfold confusion_counts, confusion_matrix, unique_labels. cbn [filter].
    now rewrite existsb_eqb_false, existsb_eqb_true, Ef, Et.
Qed.

Lemma both_labels_in (df : DataFrame) (th : num) :
  both_labels df th = true <->
  In false (outcomes df ++ predict df th) /\
  In true (outcomes df ++ predict df th).
Proof.
  unfold both_labels. rewrite andb_true_iff, !existsb_exists. split.
  - intros [[x [Hx Ex]] [z [Hz Ez]]]. destruct x; [discriminate|].
    subst z. now split.
  - intros [Hf Ht]. split; [now exists false|now exists true].
Qed.

(** X7: unpacking the confusion matrix into four counts (lines 83 and 212)
    succeeds exactly when both labels occur among the outcomes and the
    predictions, and then yields the row counts TN, FP, FN, TP; with a single
    label the matrix has one entry and the unpacking raises an error. *)
Theorem confusion_counts_result (df : DataFrame) (th : num) :
  ((exists c, confusion_counts df th = Ok c) <->
   In false (outcomes df ++ predict df th) /\
   In true (outcomes df ++ predict df th)) /\
  (confusion_counts df th = Ok (row_counts df th) \/
   confusion_counts df th
   = Raise (ValueError "not enough values to unpack (expected 4)")).
Proof.
  rewrite confusion_counts_cases, <- both_labels_in.
  destruct (both_labels df th); split; auto.
  - split; [reflexivity|]. intros _. eexists; reflexivity.
  - split; [intros [c Hc]; discriminate|discriminate].
Qed.

Lemma confusion_counts_ok_inv (df : DataFrame) (th : num)
      (c : nat * nat * nat * nat) :
  confusion_counts df th = Ok c -> c = row_counts df th /\ df <> [].
Proof.
  rewrite confusion_counts_cases.
  destruct (both_labels df th) eqn:E; [|discriminate].
  intros H; injection H as <-. split; [reflexivity|].
  intros ->. discriminate.
Qed.

Lemma row_counts_totals (df : DataFrame) (th : num) (tn fp fn tp : nat) :
  (tn, fp, fn, tp) = row_counts df th ->
  (tn + fp + fn + tp)%nat = length df /\
  (tp + fn)%nat = count_rows conflict_occurred df /\
  (tn + fp)%nat = count_rows (fun r => negb (conflict_occurred r)) df.
Proof.
  intros H. unfold row_counts in H. injection H as -> -> -> ->.
  unfold count_rows. induction df as [|r df IH]; [repeat split|].
  cbn [filter]. destruct (conflict_occurred r), (num_ge (to_num (ewi r)) th);
    cbn [andb negb length]; lia.
Qed.

(** X8: whatever the threshold, the four counts add up to the number of
    rows, TP + FN is the number of conflict rows and TN + FP the number of
    the other rows. *)
Theorem confusion_counts_totals (df : DataFrame) (th : num)
        (tn fp fn tp : nat) :
  confusion_counts df th = Ok (tn, fp, fn, tp) ->
  (tn + fp + fn + tp)%nat = length df /\
  (tp + fn)%nat = count_rows conflict_occurred df /\
  (tn + fp)%nat = count_rows (fun r => negb (conflict_occurred r)) df.
Proof.
  intros H. apply confusion_counts_ok_inv in H as [H _].
  now apply (row_counts_totals df th).
Qed.

Lemma confusion_counts_totals_witness :
  (1 + 0 + 0 + 1)%nat = length frame_sweep.
Proof.
  exact (proj1 (confusion_counts_totals frame_sweep (Num 0.5) 1 0 0 1 eq_refl)).
Defined.

Lemma count_rows_incl (p q : row -> bool) (df : DataFrame) :
  (forall r, p r = true -> q r = true) ->
  (count_rows p df <= count_rows q df)%nat.
Proof.
  intros H. unfold count_rows. induction df as [|r df IH]; [simpl; lia|].
  cbn [filter]. destruct (p r) eqn:E.
  - rewrite (H r E). cbn [length]. lia.
  - destruct (q r); cbn [length]; lia.
Qed.

Lemma num_ge_antitone (s : option Q) (t1 t2 : Q) :
  t1 <= t2 -> num_ge (to_num s) (Num t2) = true ->
  num_ge (to_num s) (Num t1) = true.
Proof.
  intros Ht. destruct s as [v|]; cbn; [|discriminate].
  intros H. apply Qle_bool_iff in H. apply Qle_bool_iff.
  now apply Qle_trans with t2.
Qed.

Lemma num_ge_antitone_neg (s : option Q) (t1 t2 : Q) :
  t1 <= t2 -> negb (num_ge (to_num s) (Num t1)) = true ->
  negb (num_ge (to_num s) (Num t2)) = true.
Proof.
  intros Ht H. destruct (num_ge (to_num s) (Num t2)) eqn:E; [|reflexivity].
  apply (num_ge_antitone s t1 t2 Ht) in E. now rewrite E in H.
Qed.

Lemma row_counts_monotone (df : DataFrame) (t1 t2 : Q)
      (tn1 fp1 fn1 tp1 tn2 fp2 fn2 tp2 : nat) :
  t1 <= t2 ->
  (tn1, fp1, fn1, tp1) = row_counts df (Num t1) ->
  (tn2, fp2, fn2, tp2) = row_counts df (Num t2) ->
  (tp2 <= tp1 /\ fp2 <= fp1 /\ fn1 <= fn2 /\ tn1 <= tn2)%nat.
Proof.
  intros Ht H1 H2.
  unfold row_counts in H1, H2.
  injection H1 as -> -> -> ->. injection H2 as -> -> -> ->.
  repeat split; apply count_rows_incl; intros r Hr;
    apply andb_true_iff in Hr as [Hy Hp]; rewrite Hy; cbn [andb].
  - apply (num_ge_antitone _ t1 t2 Ht). exact Hp.
  - apply (num_ge_antitone _ t1 t2 Ht). exact Hp.
  - apply (num_ge_antitone_neg _ t1 t2 Ht). exact Hp.
  - apply (num_ge_antitone_neg _ t1 t2 Ht). exact Hp.
Qed.

(** X9: raising the threshold never adds a predicted positive: TP and FP do
    not grow, FN and TN do not shrink. *)
Theorem confusion_counts_monotone (df : DataFrame) (t1 t2 : Q)
        (tn1 fp1 fn1 tp1 tn2 fp2 fn2 tp2 : nat) :
  t1 <= t2 ->
  confusion_counts df (Num t1) = Ok (tn1, fp1, fn1, tp1) ->
  confusion_counts df (Num t2) = Ok (tn2, fp2, fn2, tp2) ->
  (tp2 <= tp1 /\ fp2 <= fp1 /\ fn1 <= fn2 /\ tn1 <= tn2)%nat.
Proof.
  intros Ht H1 H2.
  apply confusion_counts_ok_inv in H1 as [H1 _].
  apply confusion_counts_ok_inv in H2 as [H2 _].
  now apply (row_counts_monotone df t1 t2).
Qed.

Lemma confusion_counts_monotone_witness :
  (0 <= 2 /\ 0 <= 0 /\ 0 <= 2 /\ 2 <= 2)%nat.
Proof.
  apply (confusion_counts_monotone frame_separated 0.5 0.95 2 0 0 2 2 0 2 0).
  - unfold Qle; simpl; lia.
  - vm_compute; reflexivity.
  - vm_compute; reflexivity.
Defined.

(** ** Ranges of the threshold table *)

Lemma Qnat_le (a b : nat) : (a <= b)%nat -> Qnat a <= Qnat b.
Proof. intros H. unfold Qnat. rewrite <- Zle_Qle. lia. Qed.

Lemma Qnat_pos (n : nat) : (0 < n)%nat -> 0 < Qnat n.
Proof. intros H. unfold Qnat, Qlt. simpl. lia. Qed.

Lemma ratio_or_zero_unit (a b : Q) :
  0 <= a -> a <= b -> 0 <= ratio_or_zero a b <= 1.
Proof.
  intros Ha Hab. split; [apply ratio_or_zero_nonneg; lra|].
  unfold ratio_or_zero. destruct (Qeq_bool b 0) eqn:E; [lra|].
  apply Qeq_bool_neq in E.
  apply Qle_shift_div_r; [|lra].
  assert (H : 0 <= b) by lra.
  apply Qle_lteq in H as [H|H]; [exact H|]. symmetry in H. contradiction.
Qed.

Lemma ratio_or_zero_mono (a a' b : Q) :
  0 <= b -> a <= a' -> ratio_or_zero a b <= ratio_or_zero a' b.
Proof.
  intros Hb Ha. unfold ratio_or_zero.
  destruct (Qeq_bool b 0) eqn:E; [lra|].
  apply Qeq_bool_neq in E.
  assert (Hpos : 0 < b).
  { apply Qle_lteq in Hb as [H|H]; [exact H|]. symmetry in H. contradiction. }
  unfold Qdiv. apply Qmult_le_compat_r; [exact Ha|].
  apply Qlt_le_weak. now apply Qinv_lt_0_compat.
Qed.

Lemma f1_unit (p r : Q) :
  0 <= p <= 1 -> 0 <= r <= 1 ->
  0 <= ratio_or_zero (2 * p * r) (p + r) <= 1.
Proof.
  intros [Hp0 Hp1] [Hr0 Hr1].
  assert (Hpr : 0 <= p * r) by now apply Qmult_le_0_compat.
  assert (H1 : 0 <= p * (1 - r)) by (apply Qmult_le_0_compat; lra).
  assert (H2 : 0 <= r * (1 - p)) by (apply Qmult_le_0_compat; lra).
  apply ratio_or_zero_unit.
  - lra.
  - assert (E : p + r - 2 * p * r == p * (1 - r) + r * (1 - p)) by ring.
    lra.
Qed.

Lemma num_eq_within (lo hi : Q) (x : num) (s : Q) :
  num_eq x (Num s) -> lo <= s <= hi -> within lo hi x.
Proof.
  intros He Hs. destruct x as [q| | |]; try contradiction.
  cbn in He. exists q. split; [reflexivity|]. rewrite He. exact Hs.
Qed.

Lemma sweep_at_shape (df : DataFrame) (t : Q) (m : metrics) :
  sweep_at df t = Ok m ->
  exists tn fp fn tp,
    (tn, fp, fn, tp) = row_counts df (Num t) /\ (0 < length df)%nat /\
    m_threshold m = t /\
    m_precision m = Num (ratio_or_zero (Qnat tp) (Qnat (tp + fp))) /\
    m_recall m = Num (ratio_or_zero (Qnat tp) (Qnat (tp + fn))) /\
    num_eq (m_f1 m)
           (Num (ratio_or_zero
                   (2 * ratio_or_zero (Qnat tp) (Qnat (tp + fp))
                      * ratio_or_zero (Qnat tp) (Qnat (tp + fn)))
                   (ratio_or_zero (Qnat tp) (Qnat (tp + fp))
                    + ratio_or_zero (Qnat tp) (Qnat (tp + fn))))) /\
    m_accuracy m = num_div (of_nat (tp + tn)) (of_nat (tp + tn + fp + fn)).
Proof.
  unfold sweep_at.
  destruct (confusion_counts df (Num t)) as [[[[tn fp] fn] tp]|e] eqn:Hc;
    [|discriminate].
  cbn [bind]. cbv zeta. intros H.
  apply confusion_counts_ok_inv in Hc as [Hc Hne].
  apply (f_equal (fun x => match x with Ok a => a | Raise _ => m end)) in H.
  cbv beta iota in H. rewrite <- H. exists tn, fp, fn, tp.
  cbn [m_threshold m_precision m_recall m_f1 m_accuracy].
  rewrite !guarded_ratio.
  split; [exact Hc|]. split; [destruct df; [congruence|simpl; lia]|].
  repeat split.
  apply guarded_f1; apply ratio_or_zero_nonneg; apply Qnat_nonneg.
Qed.

(** X10: every line of a threshold table holds four rationals between 0 and
    1: precision, recall, F1 and accuracy are never NaN and never leave the
    unit interval. *)
Theorem sweep_metrics_in_unit_interval (df : DataFrame) (ms : list metrics) :
  sweep df = Ok ms ->
  length ms = 4%nat /\
  Forall (fun m => within 0 1 (m_precision m) /\ within 0 1 (m_recall m) /\
                   within 0 1 (m_f1 m) /\ within 0 1 (m_accuracy m)) ms.
Proof.
  intros H. unfold sweep in H. apply mapM_Forall2 in H.
  split; [now rewrite <- (Forall2_length H)|].
  induction H as [|t m ts ms' Hm _ IH]; constructor; [|exact IH].
  destruct (sweep_at_shape df t m Hm)
    as [tn [fp [fn [tp [Hc [Hn [_ [Hp [Hr [Hf Ha]]]]]]]]]].
  assert (Hpu : 0 <= ratio_or_zero (Qnat tp) (Qnat (tp + fp)) <= 1).
  { apply ratio_or_zero_unit; [apply Qnat_nonneg|apply Qnat_le; lia]. }
  assert (Hru : 0 <= ratio_or_zero (Qnat tp) (Qnat (tp + fn)) <= 1).
  { apply ratio_or_zero_unit; [apply Qnat_nonneg|apply Qnat_le; lia]. }
  split; [rewrite Hp; eexists; split; [reflexivity|exact Hpu]|].
  split; [rewrite Hr; eexists; split; [reflexivity|exact Hru]|].
  split; [apply (num_eq_within 0 1 _ _ Hf); now apply f1_unit|].
  assert (Htot : (tp + tn + fp + fn)%nat = length df).
  { pose proof (counts_partition df (fun r => num_ge (to_num (ewi r)) (Num t)))
      as Hpart.
    unfold row_counts in Hc. injection Hc as -> -> -> ->. exact Hpart. }
  rewrite Ha, num_div_counts by lia.
  eexists; split; [reflexivity|]. split.
  - apply Qle_shift_div_l; [apply Qnat_pos; lia|].
    rewrite Qmult_0_l. apply Qnat_nonneg.
  - apply Qle_shift_div_r; [apply Qnat_pos; lia|].
    rewrite Qmult_1_l. apply Qnat_le. lia.
Qed.

Lemma sweep_metrics_in_unit_interval_witness :
  exists ms, sweep frame_separated = Ok ms /\ length ms = 4%nat.
Proof.
  assert (E : exists ms, sweep frame_separated = Ok ms).
  { eexists. vm_compute. reflexivity. }
  destruct E as [ms E]. exists ms. split; [exact E|].
  exact (proj1 (sweep_metrics_in_unit_interval frame_separated ms E)).
Defined.

Lemma recall_falls_between (df : DataFrame) (t t' : Q) (m m' : metrics) :
  t <= t' -> sweep_at df t = Ok m -> sweep_at df t' = Ok m' ->
  recall_falls m m'.
Proof.
  intros Ht Hm Hm'.
  destruct (sweep_at_shape df t m Hm)
    as [tn [fp [fn [tp [Hc [_ [_ [_ [Hr _]]]]]]]]].
  destruct (sweep_at_shape df t' m' Hm')
    as [tn' [fp' [fn' [tp' [Hc' [_ [_ [_ [Hr' _]]]]]]]]].
  destruct (row_counts_monotone df t t' _ _ _ _ _ _ _ _ Ht Hc Hc') as [Htp _].
  destruct (row_counts_totals df _ _ _ _ _ Hc) as [_ [HP _]].
  destruct (row_counts_totals df _ _ _ _ _ Hc') as [_ [HP' _]].
  exists (ratio_or_zero (Qnat tp) (Qnat (tp + fn))),
         (ratio_or_zero (Qnat tp') (Qnat (tp' + fn'))).
  split; [exact Hr|]. split; [exact Hr'|].
  rewrite HP, HP'. apply ratio_or_zero_mono; [apply Qnat_nonneg|].
  now apply Qnat_le.
Qed.

(** X11: down the threshold table (0.4, 0.5, 0.6, 0.7) the recall never goes
    up: each line's recall is at most that of every line above it. *)
Theorem sweep_recall_falls (df : DataFrame) (ms : list metrics) :
  sweep df = Ok ms ->
  map m_threshold ms = sweep_thresholds /\ StronglySorted recall_falls ms.
Proof.
  intros H. unfold sweep, sweep_thresholds in *. apply mapM_Forall2 in H.
  inversion H as [|t4 m4 ts4 ms4 H4 R4]; subst; clear H.
  inversion R4 as [|t5 m5 ts5 ms5 H5 R5]; subst; clear R4.
  inversion R5 as [|t6 m6 ts6 ms6 H6 R6]; subst; clear R5.
  inversion R6 as [|t7 m7 ts7 ms7 H7 R7]; subst; clear R6.
  inversion R7; subst; clear R7.
  split.
  - cbn [map].
    destruct (sweep_at_shape _ _ _ H4) as [? [? [? [? [_ [_ [-> _]]]]]]].
    destruct (sweep_at_shape _ _ _ H5) as [? [? [? [? [_ [_ [-> _]]]]]]].
    destruct (sweep_at_shape _ _ _ H6) as [? [? [? [? [_ [_ [-> _]]]]]]].
    destruct (sweep_at_shape _ _ _ H7) as [? [? [? [? [_ [_ [-> _]]]]]]].
    reflexivity.
  - assert (L45 : 0.4 <= 0.5) by (unfold Qle; simpl; lia).
    assert (L46 : 0.4 <= 0.6) by (unfold Qle; simpl; lia).
    assert (L47 : 0.4 <= 0.7) by (unfold Qle; simpl; lia).
    assert (L56 : 0.5 <= 0.6) by (unfold Qle; simpl; lia).
    assert (L57 : 0.5 <= 0.7) by (unfold Qle; simpl; lia).
    assert (L67 : 0.6 <= 0.7) by (unfold Qle; simpl; lia).
    repeat (constructor; [|repeat constructor;
                            eauto using recall_falls_between]).
    constructor.
Qed.

Lemma sweep_recall_falls_witness :
  exists ms, sweep frame_separated = Ok ms /\
             map m_threshold ms = sweep_thresholds.
Proof.
  assert (E : exists ms, sweep frame_separated = Ok ms).
  { eexists. vm_compute. reflexivity. }
  destruct E as [ms E]. exists ms. split; [exact E|].
  exact (proj1 (sweep_recall_falls frame_separated ms E)).
Defined.

(** ** When the script completes *)

Lemma mapM_ok {A B : Type} (f : A -> res B) (l : list A) :
  (forall a, In a l -> exists b, f a = Ok b) -> exists bs, mapM f l = Ok bs.
Proof.
  induction l as [|a l IH]; intros H; cbn [mapM].
  - eexists; reflexivity.
  - destruct (H a (or_introl eq_refl)) as [b Hb].
    destruct IH as [bs Hbs]; [intros x Hx; apply H; now right|].
    rewrite Hb, Hbs. cbn [bind]. eexists; reflexivity.
Qed.

Lemma Forall2_in_left {A B : Type} (R : A -> B -> Prop) (l : list A)
      (l' : list B) (a : A) :
  Forall2 R l l' -> In a l -> exists b, R a b.
Proof.
  induction 1 as [|x y l l' Hxy _ IH]; intros Hin; [destruct Hin|].
  destruct Hin as [->|Hin]; [now exists y|now apply IH].
Qed.

Lemma all_present_complete (l : list (option Q)) :
  forallb notna l = true <-> exists vs, all_present l = Some vs.
Proof.
  induction l as [|[v|] l IH]; cbn [forallb all_present notna isna negb andb].
  - split; [eexists; reflexivity|reflexivity].
  - rewrite IH. split; intros [vs H].
    + rewrite H. eexists; reflexivity.
    + destruct (all_present l) as [ws|]; [now exists ws|discriminate].
  - split; [discriminate|intros [vs H]; discriminate].
Qed.

Lemma check_array_complete (l : list (option Q)) :
  l <> [] -> forallb notna l = true -> exists vs, check_array l = Ok vs.
Proof.
  intros Hne Hall. apply all_present_complete in Hall as [vs Hvs].
  exists vs. unfold check_array. rewrite Hvs. destruct l; [congruence|reflexivity].
Qed.

Lemma auc_step (x0 x1 y0 y1 : num) (xs ys : list num) :
  auc (x0 :: x1 :: xs) (y0 :: y1 :: ys)
  = num_add (num_div (num_mul (num_sub x1 x0) (num_add y0 y1)) (Num 2))
            (auc (x1 :: xs) (y1 :: ys)).
Proof. reflexivity. Qed.

Lemma auc_finite (fq tq : list Q) :
  exists q, auc (map Num fq) (map Num tq) = Num q.
Proof.
  revert tq; induction fq as [|x0 fq IH]; intros tq.
  - eexists; reflexivity.
  - destruct fq as [|x1 fq]; [eexists; reflexivity|].
    destruct tq as [|y0 [|y1 tq]]; try (eexists; reflexivity).
    destruct (IH (y1 :: tq)) as [q Hq].
    cbn [map] in *. rewrite auc_step, Hq.
    cbn [num_sub num_neg num_add num_mul num_div].
    replace (Qeq_bool 2 0) with false by reflexivity.
    eexists; reflexivity.
Qed.

Lemma roc_auc_score_ok (y : list bool) (s : list (option Q)) :
  length s = length y -> both_classes y = true -> forallb notna s = true ->
  exists q, roc_auc_score y s = Ok (Num q).
Proof.
  intros Hlen Hb Hall.
  destruct (check_array_complete s) as [vs Hvs]; [|exact Hall|].
  { apply both_classes_nonempty in Hb. destruct s; [simpl in *; lia|discriminate]. }
  destruct (roc_curve_shape y s vs Hlen Hb Hvs) as [fq [tq [ths [Hc _]]]].
  destruct (auc_finite fq tq) as [q Hq]. exists q.
  unfold roc_auc_score. rewrite Hvs. cbn [bind]. rewrite Hb, Hc. cbn [bind].
  now rewrite Hq.
Qed.

Lemma find_optimal_threshold_ok (df : DataFrame) :
  both_classes (outcomes df) = true ->
  forallb notna (get_col col_ewi df) = true ->
  exists th, find_optimal_threshold df = Ok th.
Proof.
  intros Hb Hall.
  assert (Hlen : length (get_col col_ewi df) = length (outcomes df))
    by (unfold get_col, outcomes; now rewrite !length_map).
  destruct (check_array_complete (get_col col_ewi df)) as [vs Hvs];
    [|exact Hall|].
  { apply both_classes_nonempty in Hb. rewrite <- Hlen in Hb.
    destruct (get_col col_ewi df); [simpl in *; lia|discriminate]. }
  destruct (roc_curve_shape _ _ vs Hlen Hb Hvs)
    as [fq [tq [ths [Hc [Hlf [Hlt [_ [Hfu Htu]]]]]]]].
  destruct (np_argmax_spec (youden (map Num fq) (map Num tq))) as [k [Hk _]].
  { intros E. apply (f_equal (@length num)) in E.
    rewrite youden_length, !length_map in E. simpl in E. lia. }
  { now apply youden_defined. }
  unfold find_optimal_threshold. rewrite Hc. cbn [bind].
  rewrite Hk. cbn [bind]. eexists; reflexivity.
Qed.

Lemma component_column_kept (csv : DataFrame) (c : column) :
  In c evaluated_columns -> get_col c (impute csv) = get_col c csv.
Proof.
  intros Hin. rewrite impute_rowwise. unfold get_col. rewrite map_map.
  apply map_ext. intros r.
  cbn in Hin. destruct Hin as [<-|[<-|[<-|[<-|[<-|[]]]]]]; reflexivity.
Qed.

Lemma imputed_scores_complete (csv : DataFrame) :
  forallb notna (get_col col_cattle_convergence csv) = true ->
  forallb notna (get_col col_ewi (impute csv)) = true.
Proof.
  rewrite impute_rowwise. unfold get_col. rewrite map_map.
  rewrite !forallb_forall. intros H x Hx.
  apply in_map_iff in Hx as [r [<- Hr]].
  change (cell col_ewi ?r') with (ewi r'). rewrite imputed_ewi.
  destruct (ewi r); [reflexivity|].
  destruct (mean_skipna (named_components r)) eqn:Em; [reflexivity|].
  apply mean_skipna_none in Em. exfalso.
  assert (Hc : notna (cattle_convergence r) = true).
  { apply H. apply in_map_iff. exists r. now split. }
  cbn [named_components existsb] in Em. rewrite Hc in Em. discriminate.
Qed.

Lemma run_completes_iff_helper (csv : DataFrame) :
  (exists rep, run csv = Ok rep) <-> completes csv = true.
Proof.
  unfold completes. rewrite andb_true_iff, forallb_forall. split.
  - intros [rep Hrun]. apply run_ok_inv in Hrun. cbv zeta in Hrun.
    destruct Hrun as [Hauc [_ [_ [Hcomp _]]]].
    destruct (roc_auc_score_ok_inv _ _ _ Hauc) as [Hb _].
    rewrite outcomes_impute in Hb. split; [exact Hb|].
    intros c Hc. rewrite <- (component_column_kept csv c Hc).
    apply mapM_Forall2 in Hcomp. unfold evaluated_columns in Hc.
    apply in_map_iff in Hc as [[name c'] [Hsnd Hin]]. cbn in Hsnd. subst c'.
    destruct (Forall2_in_left _ _ _ _ Hcomp Hin) as [line Hline].
    unfold evaluate_component in Hline.
    apply bind_ok_inv in Hline as [a [Ha _]].
    destruct (roc_auc_score_ok_inv _ _ _ Ha) as [_ [vs Hvs]].
    apply all_present_complete. exists vs.
    exact (proj1 (check_array_ok _ _ Hvs)).
  - intros [Hb Hcols]. set (df := impute csv).
    assert (Hb' : both_classes (outcomes df) = true)
      by (unfold df; now rewrite outcomes_impute).
    assert (Hewi : forallb notna (get_col col_ewi df) = true).
    { apply imputed_scores_complete. apply Hcols. cbn. auto. }
    assert (Hlen : forall c, length (get_col c df) = length (outcomes df))
      by (intros c; unfold get_col, outcomes; now rewrite !length_map).
    destruct (roc_auc_score_ok _ _ (Hlen col_ewi) Hb' Hewi) as [a Ha].
    destruct (mapM_ok (sweep_at df) sweep_thresholds) as [table Htable].
    { intros t _. destruct (sweep_at_spec df t Hb') as [m [Hm _]]. now exists m. }
    destruct (find_optimal_threshold_ok df Hb' Hewi) as [th Hth].
    destruct (mapM_ok (evaluate_component df) components) as [comps Hcomps].
    { intros [name c] Hin.
      assert (Hc : In c evaluated_columns).
      { unfold evaluated_columns. apply in_map_iff. now exists (name, c). }
      destruct (roc_auc_score_ok (outcomes df) (get_col c df)) as [q Hq].
      - apply Hlen.
      - exact Hb'.
      - unfold df. rewrite (component_column_kept csv c Hc). now apply Hcols.
      - unfold evaluate_component. rewrite Hq. cbn [bind].
        eexists; reflexivity. }
    unfold run. fold df. rewrite Ha. cbn [bind].
    unfold sweep. rewrite Htable. cbn [bind]. rewrite Hth. cbn [bind].
    unfold component_analysis. rewrite Hcomps. cbn [bind].
    unfold summarize. rewrite (confusion_counts_rows df th Hb'). cbn [bind].
    eexists; reflexivity.
Qed.

(** X12: the script runs to its verdict exactly when both outcomes occur
    and none of the five evaluated component columns has a missing cell;
    missing EWI cells and missing access_constraints cells alone never stop
    it. *)
Theorem run_completes_iff (csv : DataFrame) :
  ((exists rep, run csv = Ok rep) <->
   both_classes (outcomes csv) = true /\
   forall c r, In c evaluated_columns -> In r csv -> cell c r <> None) /\
  evaluated_columns
  = [ col_cattle_convergence; col_conflict_risk; col_resource_stress;
      col_water_score; col_forage_score ].
Proof.
  split; [|reflexivity].
  rewrite run_completes_iff_helper. unfold completes.
  rewrite andb_true_iff, forallb_forall. split.
  - intros [Hb H]. split; [exact Hb|]. intros c r Hc Hr E.
    specialize (H c Hc). rewrite forallb_forall in H.
    assert (Hn : notna (cell c r) = true).
    { apply H. unfold get_col. apply in_map_iff. now exists r. }
    rewrite E in Hn. discriminate.
  - intros [Hb H]. split; [exact Hb|]. intros c Hc.
    apply forallb_forall. intros x Hx. unfold get_col in Hx.
    apply in_map_iff in Hx as [r [<- Hr]].
    destruct (cell c r) eqn:E; [reflexivity|]. exfalso. now apply (H c r).
Qed.

(** ** Where the thresholds of the curve come from *)

Lemma all_present_in (s : list (option Q)) (vs : list Q) (v : Q) :
  all_present s = Some vs -> In v vs -> In (Some v) s.
Proof.
  revert vs; induction s as [|[w|] s IH]; intros vs H Hin; cbn in H.
  - injection H as <-. destruct Hin.
  - destruct (all_present s) as [ws|]; [|discriminate]. injection H as <-.
    destruct Hin as [->|Hin]; [now left|right; now apply (IH ws)].
  - discriminate.
Qed.

Lemma take_in {A : Type} (d : A) (arr : list A) (idxs : list nat) :
  Forall (fun i => (i < length arr)%nat) idxs ->
  Forall (fun x => In x arr) (take d arr idxs).
Proof.
  intros H. unfold take. apply Forall_forall. intros x Hx.
  apply in_map_iff in Hx as [i [<- Hi]]. rewrite Forall_forall in H.
  apply nth_In. now apply H.
Qed.

Lemma base_thresholds_are_scores (y : list bool) (vs : list Q) :
  length vs = length y -> both_classes y = true ->
  let ys := map fst (rev (stable_sort (combine vs y))) in
  let dvi := np_where (map (fun d => negb (Qeq_bool d 0)) (np_diff_Q ys)) in
  Forall (fun t => In t vs) (take 0 ys (dvi ++ [(length ys - 1)%nat])).
Proof.
  intros Hlen Hb ys dvi.
  assert (Hn : (0 < length ys)%nat).
  { unfold ys. rewrite length_map, length_rev, stable_sort_length, length_combine.
    apply both_classes_nonempty in Hb. lia. }
  assert (Hidx : Forall (fun i => (i < length ys)%nat)
                        (dvi ++ [(length ys - 1)%nat])).
  { apply Forall_app. split.
    - eapply Forall_impl; [|apply np_where_spec]. intros i [Hi _].
      rewrite length_map, np_diff_Q_length in Hi. lia.
    - constructor; [lia|constructor]. }
  eapply Forall_impl; [|exact (take_in 0 ys _ Hidx)].
  intros t Ht. unfold ys in Ht. apply in_map_iff in Ht as [[v b] [<- Hin]].
  apply (proj2 (in_rev _ _)) in Hin. apply (proj1 (stable_sort_in _ _)) in Hin.
  now apply in_combine_l in Hin.
Qed.

(** The first threshold of the curve is infinite; every other one is a
    score of the data. *)
Lemma roc_curve_thresholds (y : list bool) (s : list (option Q))
      (fpr tpr thr : list num) :
  length s = length y -> both_classes y = true ->
  roc_curve y s = Ok (fpr, tpr, thr) ->
  nth 0 thr NaN = PInf /\
  forall k, (0 < k < length thr)%nat ->
            exists v, nth k thr NaN = Num v /\ In (Some v) s.
Proof.
  intros Hlen Hb Hc. unfold roc_curve in Hc.
  destruct (check_array s) as [vs|e] eqn:Hvs; [|discriminate].
  cbn [bind] in Hc.
  destruct (check_array_ok s vs Hvs) as [Hap [Hvl _]].
  assert (Hlen' : length vs = length y) by lia.
  destruct (binary_clf_curve_shape y vs Hlen' Hb) as [F [T [HF [HT Hcurve]]]].
  pose proof (base_thresholds_are_scores y vs Hlen' Hb) as Hbase.
  cbv zeta in Hbase.
  set (base := take 0 (map fst (rev (stable_sort (combine vs y)))) _) in *.
  rewrite Hcurve in Hc.
  assert (Hlb : length base = length (F ++ [Z.of_nat
             (length (filter (fun p => negb (snd p))
                             (rev (stable_sort (combine vs y)))))])).
  { unfold base. rewrite take_length, !length_app. cbn [length]. lia. }
  destruct (optimal_idxs_shape
              (F ++ [Z.of_nat (length (filter (fun p => negb (snd p))
                                  (rev (stable_sort (combine vs y)))))])
              (T ++ [Z.of_nat (length (filter snd
                                  (rev (stable_sort (combine vs y)))))]))
    as [_ [_ Hbound]].
  { rewrite !length_app. cbn [length]. lia. }
  { rewrite length_app. cbn [length]. lia. }
  set (idxs := if (2 <? _)%nat then _ else _) in *.
  injection Hc as _ _ <-. split; [reflexivity|].
  intros k [Hk0 Hk]. cbn [length] in Hk. rewrite length_map in Hk.
  destruct k as [|k]; [lia|]. cbn [nth].
  rewrite (nth_indep _ NaN (Num 0)) by (rewrite length_map; lia).
  rewrite (map_nth Num). eexists. split; [reflexivity|].
  apply (all_present_in s vs _ Hap).
  assert (Hin : In (nth k (take 0 base idxs) 0) base).
  { assert (Hall : Forall (fun x => In x base) (take 0 base idxs)).
    { apply take_in. eapply Forall_impl; [|exact Hbound].
      intros i Hi. cbv beta in Hi. now rewrite Hlb. }
    rewrite Forall_forall in Hall. apply Hall. apply nth_In. lia. }
  rewrite Forall_forall in Hbase. now apply Hbase.
Qed.

(** ** The summary at the optimal threshold, case by case *)

Lemma optimal_threshold_origin (df : DataFrame) (th : num) :
  both_classes (outcomes df) = true ->
  find_optimal_threshold df = Ok th ->
  th = PInf \/ exists r v, In r df /\ ewi r = Some v /\ th = Num v.
Proof.
  intros Hb H. unfold find_optimal_threshold in H.
  destruct (roc_curve (outcomes df) (get_col col_ewi df))
    as [[[fpr tpr] thr]|e] eqn:Hc; [|discriminate].
  cbn [bind] in H.
  assert (Hlen : length (get_col col_ewi df) = length (outcomes df))
    by (unfold get_col, outcomes; now rewrite !length_map).
  destruct (roc_curve_thresholds _ _ _ _ _ Hlen Hb Hc) as [H0 Hrest].
  assert (Hvs : exists vs, check_array (get_col col_ewi df) = Ok vs).
  { unfold roc_curve in Hc.
    destruct (check_array (get_col col_ewi df)) as [vs|]; [now exists vs|discriminate]. }
  destruct Hvs as [vs Hvs].
  destruct (roc_curve_shape _ _ vs Hlen Hb Hvs)
    as [fq [tq [ths [Hc' [Hlf [Hlt [_ [Hfu Htu]]]]]]]].
  rewrite Hc in Hc'. injection Hc' as -> -> ->.
  destruct (np_argmax_spec (youden (map Num fq) (map Num tq)))
    as [k [Hk [Hkl _]]].
  { intros E. apply (f_equal (@length num)) in E.
    rewrite youden_length, !length_map in E. simpl in E. lia. }
  { now apply youden_defined. }
  rewrite Hk in H. cbn [bind] in H. injection H as <-.
  rewrite youden_length, !length_map in Hkl.
  destruct k as [|k]; [left; reflexivity|right].
  destruct (Hrest (S k)) as [v [Hv Hin]].
  { cbn [length]. rewrite length_map. lia. }
  unfold get_col in Hin. apply in_map_iff in Hin as [r [Hr Hin]].
  exists r, v. split; [exact Hin|]. split; [exact Hr|exact Hv].
Qed.

Lemma count_rows_zero (p : row -> bool) (df : DataFrame) :
  (forall r, In r df -> p r = false) -> count_rows p df = 0%nat.
Proof.
  intros H. unfold count_rows. induction df as [|r df IH]; [reflexivity|].
  cbn [filter]. rewrite (H r (or_introl eq_refl)).
  apply IH. intros x Hx. apply H. now right.
Qed.

Lemma count_rows_pos (p : row -> bool) (df : DataFrame) (r : row) :
  In r df -> p r = true -> (0 < count_rows p df)%nat.
Proof. intros Hin Hp. unfold count_rows. now apply (filter_length_pos p df r). Qed.

Lemma conflicts_pos (df : DataFrame) :
  both_classes (outcomes df) = true ->
  (0 < count_rows conflict_occurred df)%nat.
Proof.
  unfold both_classes, outcomes. intros H. apply andb_true_iff in H as [H _].
  apply existsb_exists in H as [b [Hin Hb]]. subst b.
  apply in_map_iff in Hin as [r [Hr Hin]].
  now apply (count_rows_pos conflict_occurred df r).
Qed.

Lemma unguarded_precision (tp fp : nat) :
  num_div (of_nat tp) (of_nat (tp + fp)) = NaN <-> (tp + fp = 0)%nat.
Proof.
  split.
  - intros H. destruct (tp + fp)%nat eqn:E; [reflexivity|].
    rewrite num_div_counts in H by lia. discriminate.
  - intros H. assert (tp = 0%nat) by lia. subst tp. rewrite H. reflexivity.
Qed.

Lemma Qnat_ratio_pos (a b : nat) :
  (0 < a)%nat -> (0 < b)%nat -> 0 < Qnat a / Qnat b.
Proof.
  intros Ha Hb. apply Qlt_shift_div_l; [now apply Qnat_pos|].
  rewrite Qmult_0_l. now apply Qnat_pos.
Qed.

Lemma unguarded_f1 (tp fp fn : nat) :
  (0 < tp + fn)%nat ->
  let precision := num_div (of_nat tp) (of_nat (tp + fp)) in
  let recall := num_div (of_nat tp) (of_nat (tp + fn)) in
  num_div (num_mul (Num 2) (num_mul precision recall))
          (num_add precision recall) = NaN
  <-> tp = 0%nat.
Proof.
  intros Hp. cbv zeta. rewrite (num_div_counts tp (tp + fn)) by lia.
  destruct tp as [|tp].
  - split; [reflexivity|intros _].
    destruct fp as [|fp]; [reflexivity|].
    rewrite num_div_counts by lia. cbn [num_mul num_add num_div].
    assert (E : Qnat 0 / Qnat (0 + S fp) + Qnat 0 / Qnat (0 + fn) == 0).
    { change (Qnat 0) with 0. unfold Qdiv. ring. }
    assert (E2 : 0 == 2 * (Qnat 0 / Qnat (0 + S fp) * (Qnat 0 / Qnat (0 + fn)))).
    { change (Qnat 0) with 0. unfold Qdiv. ring. }
    apply Qeq_bool_iff in E. rewrite E.
    apply Qeq_alt in E2. now rewrite E2.
  - split; [|discriminate]. rewrite num_div_counts by lia.
    cbn [num_mul num_add num_div].
    pose proof (Qnat_ratio_pos (S tp) (S tp + fp) ltac:(lia) ltac:(lia)) as H1.
    pose proof (Qnat_ratio_pos (S tp) (S tp + fn) ltac:(lia) ltac:(lia)) as H2.
    destruct (Qeq_bool (Qnat (S tp) / Qnat (S tp + fp)
                        + Qnat (S tp) / Qnat (S tp + fn)) 0) eqn:E;
      [|discriminate].
    apply Qeq_bool_iff in E. lra.
Qed.

(** X13: in a completed run the optimal threshold is either infinite or the
    score of some row.  The summary's precision is NaN exactly when the
    threshold is infinite, which is exactly when no row is predicted positive
    (TP + FP = 0); its F1 is NaN exactly when TP = 0; its recall is always a
    rational between 0 and 1. *)
Theorem summary_nan_cases (csv : DataFrame) (rep : report) :
  run csv = Ok rep ->
  let th := r_optimal_threshold rep in
  let s := r_summary rep in
  exists tn fp fn tp,
    s_confusion s = (tn, fp, fn, tp) /\
    (th = PInf \/
     exists r v, In r (impute csv) /\ ewi r = Some v /\ th = Num v) /\
    (s_precision s = NaN <-> th = PInf) /\
    (s_precision s = NaN <-> (tp + fp = 0)%nat) /\
    (s_f1 s = NaN <-> tp = 0%nat) /\
    within 0 1 (s_recall s).
Proof.
  intros Hrun th s. apply run_ok_inv in Hrun. cbv zeta in Hrun.
  destruct Hrun as [Hauc [_ [Hopt [_ [_ [Hsum _]]]]]].
  fold th in Hopt, Hsum. fold s in Hsum.
  set (df := impute csv) in *.
  destruct (roc_auc_score_ok_inv _ _ _ Hauc) as [Hb _].
  pose proof (optimal_threshold_origin df th Hb Hopt) as Horigin.
  unfold summarize in Hsum.
  rewrite (confusion_counts_rows df th Hb) in Hsum. cbn [bind] in Hsum.
  set (pos := fun r => num_ge (to_num (ewi r)) th) in *.
  set (tn := count_rows (fun r => negb (conflict_occurred r) && negb (pos r)) df) in *.
  set (fp := count_rows (fun r => negb (conflict_occurred r) && pos r) df) in *.
  set (fn := count_rows (fun r => conflict_occurred r && negb (pos r)) df) in *.
  set (tp := count_rows (fun r => conflict_occurred r && pos r) df) in *.
  apply (f_equal (fun x => match x with Ok a => a | Raise _ => s end)) in Hsum.
  cbv beta iota in Hsum. rewrite <- Hsum.
  cbn [s_confusion s_precision s_recall s_f1].
  assert (HP : (tp + fn)%nat = count_rows conflict_occurred df).
  { apply (row_counts_totals df th tn fp fn tp). reflexivity. }
  assert (Hpos : (0 < tp + fn)%nat) by (rewrite HP; now apply conflicts_pos).
  assert (Hinf : (tp + fp = 0)%nat <-> th = PInf).
  { split.
    - intros Hz. destruct Horigin as [E|[r [v [Hin [He E]]]]]; [exact E|].
      exfalso.
      assert (Hp : pos r = true).
      { unfold pos. rewrite He, E. cbn. apply Qle_bool_iff. apply Qle_refl. }
      destruct (conflict_occurred r) eqn:Ey.
      + assert (0 < tp)%nat; [|lia].
        apply (count_rows_pos _ df r Hin). now rewrite Ey, Hp.
      + assert (0 < fp)%nat; [|lia].
        apply (count_rows_pos _ df r Hin). now rewrite Ey, Hp.
    - intros E.
      assert (Hnone : forall r, pos r = false).
      { intros r. unfold pos. rewrite E. now destruct (ewi r). }
      unfold tp, fp. rewrite !count_rows_zero; [reflexivity| |];
        intros r _; rewrite Hnone; apply andb_false_r. }
  exists tn, fp, fn, tp.
  split; [reflexivity|]. split; [exact Horigin|].
  split; [rewrite unguarded_precision; exact Hinf|].
  split; [apply unguarded_precision|].
  split; [now apply unguarded_f1|].
  rewrite num_div_counts by exact Hpos. eexists; split; [reflexivity|]. split.
  - apply Qle_shift_div_l; [now apply Qnat_pos|].
    rewrite Qmult_0_l. apply Qnat_nonneg.
  - apply Qle_shift_div_r; [now apply Qnat_pos|].
    rewrite Qmult_1_l. apply Qnat_le. apply Nat.le_add_r.
Qed.

Lemma summary_nan_cases_witness :
  exists rep, run frame_tied = Ok rep /\ r_optimal_threshold rep = PInf /\
              s_precision (r_summary rep) = NaN.
Proof.
  assert (E : exists rep, run frame_tied = Ok rep /\ r_optimal_threshold rep = PInf).
  { eexists. split; vm_compute; reflexivity. }
  destruct E as [rep [E T]]. exists rep. split; [exact E|]. split; [exact T|].
  pose proof (summary_nan_cases frame_tied rep E) as H. cbv zeta in H.
  destruct H as [tn [fp [fn [tp [_ [_ [H _]]]]]]]. apply H. exact T.
Defined.

(** ** The priority table *)

Lemma same_value_eq (x y : option Z) : same_value x y = true <-> x = y.
Proof.
  destruct x as [a|], y as [b|]; cbn; split; intros H;
    try discriminate; try reflexivity.
  - apply Z.eqb_eq in H. now subst.
  - injection H as ->. apply Z.eqb_refl.
Qed.

Lemma existsb_same_value (x : option Z) (l : list (option Z)) :
  existsb (same_value x) l = true <-> In x l.
Proof.
  rewrite existsb_exists. split.
  - intros [y [Hy E]]. apply same_value_eq in E. now subst.
  - intros H. exists x. split; [exact H|now apply same_value_eq].
Qed.

Lemma unique_from_spec (l seen : list (option Z)) :
  NoDup (unique_from seen l) /\
  forall x, In x (unique_from seen l) <-> In x l /\ ~ In x seen.
Proof.
  revert seen; induction l as [|y l IH]; intros seen; cbn [unique_from].
  - split; [constructor|]. intros x. cbn. tauto.
  - destruct (existsb (same_value y) seen) eqn:E.
    + apply existsb_same_value in E. destruct (IH seen) as [Hn Hi].
      split; [exact Hn|]. intros x. rewrite Hi. cbn. split.
      * intros [H1 H2]. auto.
      * intros [[->|H1] H2]; [contradiction|auto].
    + assert (Hy : ~ In y seen).
      { intros H. apply existsb_same_value in H. congruence. }
      destruct (IH (y :: seen)) as [Hn Hi]. split.
      * constructor; [|exact Hn]. intros H. apply Hi in H as [_ H].
        apply H. now left.
      * intros x. cbn [In]. rewrite Hi. cbn [In]. split.
        -- intros [->|[H1 H2]]; [auto|]. split; [now right|].
           intros H. apply H2. now right.
        -- intros [[->|H1] H2]; [now left|].
           destruct (same_value y x) eqn:Eyx.
           ++ apply same_value_eq in Eyx. now left.
           ++ right. split; [exact H1|]. intros [->|H]; [|contradiction].
              assert (same_value x x = true) by now apply same_value_eq.
              congruence.
Qed.

Lemma unique_spec (l : list (option Z)) :
  NoDup (unique l) /\ forall x, In x (unique l) <-> In x l.
Proof.
  destruct (unique_from_spec l []) as [Hn Hi]. split; [exact Hn|].
  intros x. unfold unique. rewrite Hi. cbn. tauto.
Qed.

Section SortPermutes.
Context {A : Type} (lt : A -> A -> bool).

Lemma binary_insert_perm (a : list A) (pivot : A) :
  Permutation (binary_insert lt a pivot) (pivot :: a).
Proof.
  unfold binary_insert. set (k := bisect lt (length a) pivot a 0 (length a)).
  rewrite <- (firstn_skipn k a) at 3. symmetry. apply Permutation_middle.
Qed.

Lemma fold_binary_insert_perm (rest init : list A) :
  Permutation (fold_left (binary_insert lt) rest init) (init ++ rest).
Proof.
  revert init; induction rest as [|x rest IH]; intros init; cbn [fold_left].
  - now rewrite app_nil_r.
  - rewrite IH. rewrite binary_insert_perm. cbn [app].
    apply Permutation_middle.
Qed.

(** Whatever the comparison answers, sorting only rearranges the list. *)
Lemma py_sorted_perm (l : list A) : Permutation (py_sorted lt l) l.
Proof.
  destruct l as [|x [|y l]]; try reflexivity.
  unfold py_sorted. destruct (count_run lt (x :: y :: l)) as [n d].
  rewrite fold_binary_insert_perm. set (L := x :: y :: l).
  transitivity (firstn n L ++ skipn n L); [|now rewrite firstn_skipn].
  apply Permutation_app_tail. destruct d; [|reflexivity].
  symmetry. apply Permutation_rev.
Qed.
End SortPermutes.

Lemma flat_map_some_in (l : list (option Z)) (p : Z) :
  In p (flat_map (fun priority =>
                    match priority with
                    | Some q => if (q =? 0)%Z then [] else [q]
                    | None => []
                    end) l)
  <-> p <> 0%Z /\ In (Some p) l.
Proof.
  rewrite in_flat_map. split.
  - intros [[q|] [Hx Hin]]; [|destruct Hin].
    destruct (q =? 0)%Z eqn:E; [destruct Hin|].
    destruct Hin as [<-|[]]. apply Z.eqb_neq in E. now split.
  - intros [Hne Hin]. exists (Some p). split; [exact Hin|].
    apply Z.eqb_neq in Hne. rewrite Hne. now left.
Qed.

Lemma flat_map_some_nodup (l : list (option Z)) :
  NoDup l ->
  NoDup (flat_map (fun priority =>
                     match priority with
                     | Some q => if (q =? 0)%Z then [] else [q]
                     | None => []
                     end) l).
Proof.
  induction 1 as [|x l Hx Hn IH]; cbn [flat_map]; [constructor|].
  destruct x as [q|]; [|exact IH].
  destruct (q =? 0)%Z; [exact IH|]. cbn [app]. constructor; [|exact IH].
  intros H. apply flat_map_some_in in H as [_ H]. contradiction.
Qed.

Lemma zone_priorities_spec (df : DataFrame) :
  NoDup (zone_priorities df) /\
  forall p, In p (zone_priorities df)
            <-> p <> 0%Z /\ exists r, In r df /\ priority_class r = Some p.
Proof.
  unfold zone_priorities.
  destruct (unique_spec (map priority_class df)) as [Hn Hi].
  pose proof (py_sorted_perm priority_lt (unique (map priority_class df))) as Hp.
  split.
  - apply flat_map_some_nodup.
    apply (Permutation_NoDup (Permutation_sym Hp) Hn).
  - intros p. rewrite flat_map_some_in. split; intros [Hne H]; split; auto.
    + apply (Permutation_in _ Hp) in H. apply Hi in H.
      apply in_map_iff in H as [r [Hr Hin]]. now exists r.
    + destruct H as [r [Hin Hr]].
      apply (Permutation_in _ (Permutation_sym Hp)). apply Hi.
      apply in_map_iff. now exists r.
Qed.

(** X14: the priority table has exactly one line for every class that some
    row carries, apart from class 0 and missing cells: no class is reported
    twice and none is left out, whatever the order of the rows. *)
Theorem zone_lines_cover_classes (df : DataFrame) :
  NoDup (zone_priorities df) /\
  (forall p, In p (zone_priorities df)
             <-> p <> 0%Z /\ exists r, In r df /\ priority_class r = Some p) /\
  length (zone_validation df) = length (zone_priorities df).
Proof.
  destruct (zone_priorities_spec df) as [Hn Hi].
  split; [exact Hn|]. split; [exact Hi|].
  unfold zone_validation. apply length_map.
Qed.

Lemma filter_filter_length {X : Type} (f g : X -> bool) (l : list X) :
  length (filter f (filter g l)) = length (filter (fun x => g x && f x) l).
Proof.
  induction l as [|x l IH]; [reflexivity|]. cbn [filter].
  destruct (g x); cbn [andb filter]; [destruct (f x); cbn [length]|]; now rewrite IH.
Qed.

Lemma Forall2_map_right {X Y : Type} (R : X -> Y -> Prop) (f : X -> Y)
      (l : list X) :
  (forall x, In x l -> R x (f x)) -> Forall2 R l (map f l).
Proof.
  induction l as [|x l IH]; intros H; cbn [map]; constructor.
  - apply H. now left.
  - apply IH. intros y Hy. apply H. now right.
Qed.

Lemma priority_map_unknown (p : Z) :
  priority_map p = None <-> (p < 1 \/ 4 < p)%Z.
Proof.
  split.
  - intros H. destruct (Z_lt_dec p 1) as [|H1]; [now left|].
    destruct (Z_lt_dec 4 p) as [|H4]; [now right|]. exfalso.
    assert (E : p = 1%Z \/ p = 2%Z \/ p = 3%Z \/ p = 4%Z) by lia.
    destruct E as [-> | [-> | [-> | ->]]]; discriminate.
  - intros H. destruct p as [|q|q]; [reflexivity| |reflexivity].
    destruct q as [[q|q|]|[q|q|]|]; try reflexivity; try lia.
    destruct q; try reflexivity; lia.
Qed.

(** X15: every line of the priority table counts at least one row, reports
    no more conflicts than rows, and its percentage is 100 times conflicts
    over rows, a rational between 0 and 100 (the guard for an empty class is
    never taken); the label is Unknown exactly for codes outside 1 to 4. *)
Theorem zone_line_contents (df : DataFrame) :
  Forall2
    (fun p line =>
       z_total line
       = count_rows (fun r => same_value (priority_class r) (Some p)) df /\
       z_conflicts line
       = count_rows (fun r => same_value (priority_class r) (Some p)
                              && conflict_occurred r) df /\
       (1 <= z_total line)%nat /\
       (z_conflicts line <= z_total line)%nat /\
       (exists q, z_pct line = Num q /\
                  q == 100 * Qnat (z_conflicts line) / Qnat (z_total line) /\
                  0 <= q <= 100) /\
       (z_label line = "Unknown"%string <-> (p < 1 \/ 4 < p)%Z))
    (zone_priorities df) (zone_validation df).
Proof.
  unfold zone_validation. apply Forall2_map_right. intros p Hp.
  apply (proj2 (zone_priorities_spec df)) in Hp as [Hne [r [Hin Hr]]].
  unfold zone_line_of. cbn [z_total z_conflicts z_pct z_label].
  rewrite filter_filter_length. unfold count_rows.
  set (n := length (filter (fun r => same_value (priority_class r) (Some p)) df)).
  set (c := length (filter (fun x => same_value (priority_class x) (Some p)
                                     && conflict_occurred x) df)).
  assert (Hpos : (0 < n)%nat).
  { apply (count_rows_pos _ df r Hin). now apply same_value_eq. }
  assert (Hle : (c <= n)%nat).
  { apply (count_rows_incl
             (fun x => same_value (priority_class x) (Some p) && conflict_occurred x)
             (fun x => same_value (priority_class x) (Some p)) df).
    intros x Hx. now apply andb_true_iff in Hx as [Hx _]. }
  clearbody n c.
  split; [reflexivity|]. split; [reflexivity|]. split; [exact Hpos|].
  split; [exact Hle|]. split.
  - replace (0 <? n)%nat with true by (symmetry; now apply Nat.ltb_lt).
    rewrite num_div_counts by exact Hpos. cbn [num_mul].
    eexists. split; [reflexivity|].
    pose proof (Qnat_pos _ Hpos) as Hq.
    pose proof (Qnat_nonneg c) as Hc.
    pose proof (Qnat_le _ _ Hle) as Hcl.
    assert (H0 : 0 <= Qnat c / Qnat n).
    { apply Qle_shift_div_l; [exact Hq|lra]. }
    assert (H1 : Qnat c / Qnat n <= 1).
    { apply Qle_shift_div_r; [exact Hq|lra]. }
    split; [field; lra|]. split; lra.
  - rewrite <- priority_map_unknown.
    destruct (priority_map p) as [s|] eqn:E; [|split; reflexivity].
    split; [|discriminate]. intros Hs. exfalso.
    destruct p as [|q|q]; cbn in E; try discriminate.
    destruct q as [[q|q|]|[q|q|]|]; cbn in E; try discriminate;
      try (injection E as <-; discriminate).
    destruct q; cbn in E; try discriminate. injection E as <-; discriminate.
Qed.

Lemma list_sum_cons (a : nat) (l : list nat) :
  list_sum (a :: l) = (a + list_sum l)%nat.
Proof. reflexivity. Qed.

Lemma one_class_per_row (x : option Z) (l : list Z) :
  NoDup l ->
  list_sum (map (fun p => if same_value x (Some p) then 1%nat else 0%nat) l)
  = if existsb (fun p => same_value x (Some p)) l then 1%nat else 0%nat.
Proof.
  induction 1 as [|p l Hp Hn IH]; [reflexivity|].
  cbn [map existsb]. rewrite list_sum_cons, IH.
  destruct (same_value x (Some p)) eqn:E; cbn [orb]; [|reflexivity].
  apply same_value_eq in E. subst x.
  replace (existsb (fun q => same_value (Some p) (Some q)) l) with false;
    [reflexivity|].
  symmetry. apply not_true_is_false. intros H.
  apply existsb_exists in H as [q [Hq E]]. apply same_value_eq in E.
  injection E as ->. contradiction.
Qed.

Lemma class_counts_sum (df : DataFrame) (l : list Z) :
  NoDup l ->
  list_sum (map (fun p => count_rows
                            (fun r => same_value (priority_class r) (Some p)) df)
                l)
  = count_rows (fun r => existsb (fun p => same_value (priority_class r) (Some p)) l)
               df.
Proof.
  intros Hn. unfold count_rows. induction df as [|r df IH].
  - cbn [filter length]. clear Hn. induction l as [|p l IHl]; [reflexivity|].
    cbn [map]. now rewrite list_sum_cons, IHl.
  - cbn [filter].
    assert (E : list_sum
                  (map (fun p => length
                          (if same_value (priority_class r) (Some p)
                           then r :: filter (fun r0 => same_value (priority_class r0) (Some p)) df
                           else filter (fun r0 => same_value (priority_class r0) (Some p)) df))
                       l)
                = (list_sum (map (fun p => if same_value (priority_class r) (Some p)
                                           then 1%nat else 0%nat) l)
                   + list_sum (map (fun p => length
                          (filter (fun r0 => same_value (priority_class r0) (Some p)) df)) l))%nat).
    { clear. induction l as [|p l IHl]; [reflexivity|].
      cbn [map]. rewrite !list_sum_cons, IHl.
      destruct (same_value (priority_class r) (Some p)); cbn [length]; lia. }
    rewrite E, IH, (one_class_per_row _ l Hn).
    destruct (existsb (fun p => same_value (priority_class r) (Some p)) l);
      cbn [length]; lia.
Qed.

Lemma count_rows_ext_in (p q : row -> bool) (df : DataFrame) :
  (forall r, In r df -> p r = q r) -> count_rows p df = count_rows q df.
Proof.
  intros H. unfold count_rows. induction df as [|r df IH]; [reflexivity|].
  cbn [filter]. rewrite (H r (or_introl eq_refl)).
  assert (E : length (filter p df) = length (filter q df))
    by (apply IH; intros x Hx; apply H; now right).
  destruct (q r); cbn [length]; now rewrite E.
Qed.

(** X16: the totals of the priority table add up to the number of rows that
    carry a class other than 0: every such row is counted in exactly one
    line, and rows with class 0 or no class in none. *)
Theorem zone_totals_sum (df : DataFrame) :
  list_sum (map z_total (zone_validation df)) = count_rows classified df.
Proof.
  unfold zone_validation. rewrite map_map.
  destruct (zone_priorities_spec df) as [Hn Hi].
  change (fun x => z_total (zone_line_of df x))
    with (fun p => count_rows
                     (fun r => same_value (priority_class r) (Some p)) df).
  rewrite (class_counts_sum df _ Hn).
  apply count_rows_ext_in. intros r Hin. unfold classified.
  destruct (priority_class r) as [p|] eqn:Hr.
  - destruct (p =? 0)%Z eqn:E; cbn [negb].
    + apply Z.eqb_eq in E. subst p. apply not_true_is_false. intros H.
      apply existsb_exists in H as [q [Hq Eq]]. apply same_value_eq in Eq.
      injection Eq as <-. apply Hi in Hq as [Hq _]. now apply Hq.
    + apply Z.eqb_neq in E. apply existsb_exists. exists p.
      split; [|now apply same_value_eq]. apply Hi. split; [exact E|].
      now exists r.
  - apply not_true_is_false. intros H.
    apply existsb_exists in H as [q [_ Eq]]. discriminate.
Qed.

(** ** Sorting values that can all be compared *)

Section SortOrders.
Context {A : Type} (lt : A -> A -> bool) (key : A -> Z) (P : A -> Prop).
Hypothesis lt_key : forall x y, P x -> P y -> lt x y = (key x <? key y)%Z.

Let kle (x y : A) : Prop := (key x <= key y)%Z.

Lemma kle_cons (x y : A) (l : list A) :
  kle x y -> StronglySorted kle (y :: l) -> StronglySorted kle (x :: y :: l).
Proof.
  intros Hxy Hs. constructor; [exact Hs|].
  inversion Hs as [|? ? _ Hall]; subst. constructor; [exact Hxy|].
  eapply Forall_impl; [|exact Hall]. intros z Hz. unfold kle in *. lia.
Qed.

Lemma run_tail_ascending (l : list A) (prev : A) :
  Forall P (prev :: l) ->
  StronglySorted kle (prev :: firstn (run_tail lt false prev l) l).
Proof.
  revert prev; induction l as [|x l IH]; intros prev Hall; cbn [run_tail firstn].
  - constructor; constructor.
  - inversion Hall as [|? ? Hp Hl]; subst. inversion Hl as [|? ? Hx Hl']; subst.
    rewrite (lt_key x prev Hx Hp).
    destruct (key x <? key prev)%Z eqn:E; cbn [Bool.eqb firstn].
    + constructor; constructor.
    + apply Z.ltb_ge in E. apply kle_cons; [exact E|]. now apply IH.
Qed.

Lemma run_tail_descending (l : list A) (prev : A) :
  Forall P (prev :: l) ->
  StronglySorted (fun a b => (key b < key a)%Z)
                 (prev :: firstn (run_tail lt true prev l) l).
Proof.
  revert prev; induction l as [|x l IH]; intros prev Hall; cbn [run_tail firstn].
  - constructor; constructor.
  - inversion Hall as [|? ? Hp Hl]; subst. inversion Hl as [|? ? Hx Hl']; subst.
    rewrite (lt_key x prev Hx Hp).
    destruct (key x <? key prev)%Z eqn:E; cbn [Bool.eqb firstn].
    + apply Z.ltb_lt in E. specialize (IH x Hl).
      constructor; [exact IH|].
      inversion IH as [|? ? _ Hrest]; subst. constructor; [exact E|].
      eapply Forall_impl; [|exact Hrest]. intros z Hz. cbv beta in Hz. lia.
    + constructor; constructor.
Qed.

Lemma leading_run_sorted (l : list A) (n : nat) (d : bool) :
  Forall P l -> count_run lt l = (n, d) ->
  StronglySorted kle (if d then rev (firstn n l) else firstn n l).
Proof.
  intros Hall Hc. destruct l as [|x0 [|x1 l]]; cbn [count_run] in Hc.
  - injection Hc as <- <-. constructor.
  - injection Hc as <- <-. cbn. constructor; constructor.
  - injection Hc as <- <-. cbn [firstn].
    inversion Hall as [|? ? H0 Hl]; subst. inversion Hl as [|? ? H1 _]; subst.
    rewrite (lt_key x1 x0 H1 H0).
    destruct (key x1 <? key x0)%Z eqn:E.
    + apply Z.ltb_lt in E.
      pose proof (run_tail_descending l x1 Hl) as Hd.
      assert (Hd' : StronglySorted (fun a b => (key b < key a)%Z)
                      (x0 :: x1 :: firstn (run_tail lt true x1 l) l)).
      { constructor; [exact Hd|].
        inversion Hd as [|? ? _ Hrest]; subst. constructor; [exact E|].
        eapply Forall_impl; [|exact Hrest]. intros z Hz. cbv beta in Hz. lia. }
      apply strongly_sorted_rev in Hd'.
      eapply strongly_sorted_weaken; [|exact Hd'].
      intros a b _ _ Hab. unfold kle. cbv beta in Hab. lia.
    + apply Z.ltb_ge in E. apply kle_cons; [exact E|].
      now apply run_tail_ascending.
Qed.

(** The bisection returns a place where the pivot can go: everything before
    it is at most the pivot, everything from it on is greater. *)
Lemma bisect_spec (fuel : nat) (pivot : A) (a : list A) (l r : nat) :
  P pivot -> Forall P a -> StronglySorted kle a ->
  (l < r <= length a)%nat -> (r - l <= fuel)%nat ->
  (forall i, (i < l)%nat -> kle (nth i a pivot) pivot) ->
  (forall i, (r <= i < length a)%nat -> (key pivot < key (nth i a pivot))%Z) ->
  let k := bisect lt fuel pivot a l r in
  (k <= length a)%nat /\
  (forall i, (i < k)%nat -> kle (nth i a pivot) pivot) /\
  (forall i, (k <= i < length a)%nat -> (key pivot < key (nth i a pivot))%Z).
Proof.
  intros Hp Hall Hs. revert l r.
  induction fuel as [|fuel IH]; intros l r Hlr Hfuel Hleft Hright; [lia|].
  cbn [bisect].
  set (p := (l + (r - l) / 2)%nat).
  assert (Hpl : (l <= p < r)%nat).
  { unfold p. pose proof (Nat.div_lt (r - l) 2 ltac:(lia) ltac:(lia)). lia. }
  clearbody p.
  assert (Hpp : P (nth p a pivot)).
  { rewrite Forall_forall in Hall. apply Hall. apply nth_In. lia. }
  assert (Hmono : forall i j, (i <= j < length a)%nat ->
                              kle (nth i a pivot) (nth j a pivot)).
  { intros i j Hij. destruct (Nat.eq_dec i j) as [->|Hne]; [unfold kle; lia|].
    apply (strongly_sorted_nth kle pivot a Hs). lia. }
  rewrite (lt_key pivot (nth p a pivot) Hp Hpp).
  destruct (key pivot <? key (nth p a pivot))%Z eqn:E.
  - apply Z.ltb_lt in E.
    assert (Hright' : forall i, (p <= i < length a)%nat ->
                                (key pivot < key (nth i a pivot))%Z).
    { intros i Hi. pose proof (Hmono p i ltac:(lia)) as H. unfold kle in H. lia. }
    destruct (l <? p)%nat eqn:El.
    + apply Nat.ltb_lt in El. apply IH; [lia|lia|exact Hleft|exact Hright'].
    + apply Nat.ltb_ge in El.
      split; [lia|]. split; [exact Hleft|].
      intros i Hi. apply Hright'. lia.
  - apply Z.ltb_ge in E.
    assert (Hleft' : forall i, (i < S p)%nat -> kle (nth i a pivot) pivot).
    { intros i Hi. pose proof (Hmono i p ltac:(lia)) as H. unfold kle in *. lia. }
    destruct (S p <? r)%nat eqn:El.
    + apply Nat.ltb_lt in El. apply IH; [lia|lia|exact Hleft'|exact Hright].
    + apply Nat.ltb_ge in El.
      split; [lia|]. split; [exact Hleft'|].
      intros i Hi. apply Hright. lia.
Qed.

Lemma sorted_insert_middle (l1 l2 : list A) (x : A) :
  StronglySorted kle (l1 ++ l2) ->
  Forall (fun y => kle y x) l1 -> Forall (kle x) l2 ->
  StronglySorted kle (l1 ++ x :: l2).
Proof.
  induction l1 as [|y l1 IH]; intros Hs H1 H2; cbn [app] in *.
  - now constructor.
  - inversion Hs as [|? ? Hs' Hall]; subst.
    inversion H1 as [|? ? Hyx H1']; subst.
    constructor; [now apply IH|].
    apply Forall_app in Hall as [Ha Hb].
    apply Forall_app. split; [exact Ha|]. now constructor.
Qed.

Lemma binary_insert_sorted (a : list A) (pivot : A) :
  P pivot -> Forall P a -> StronglySorted kle a ->
  StronglySorted kle (binary_insert lt a pivot)
  /\ Forall P (binary_insert lt a pivot).
Proof.
  intros Hp Hall Hs. split.
  - unfold binary_insert. destruct a as [|x a'].
    { cbn. constructor; constructor. }
    set (a := x :: a') in *.
    destruct (bisect_spec (length a) pivot a 0 (length a) Hp Hall Hs)
      as [Hk [Hleft Hright]].
    { unfold a. cbn [length]. lia. }
    { lia. }
    { intros i Hi. lia. }
    { intros i Hi. lia. }
    set (k := bisect lt (length a) pivot a 0 (length a)) in *.
    apply sorted_insert_middle.
    + now rewrite firstn_skipn.
    + apply Forall_forall. intros z Hz.
      apply (In_nth _ _ pivot) in Hz as [i [Hi <-]].
      rewrite length_firstn in Hi. rewrite nth_firstn.
      replace (i <? k)%nat with true by (symmetry; apply Nat.ltb_lt; lia).
      apply Hleft. lia.
    + apply Forall_forall. intros z Hz.
      apply (In_nth _ _ pivot) in Hz as [i [Hi <-]].
      rewrite length_skipn in Hi. rewrite nth_skipn.
      pose proof (Hright (k + i)%nat ltac:(lia)) as H. unfold kle. lia.
  - rewrite Forall_forall in *. intros z Hz.
    apply (Permutation_in _ (binary_insert_perm lt a pivot)) in Hz.
    destruct Hz as [<-|Hz]; [exact Hp|now apply Hall].
Qed.

Lemma fold_binary_insert_sorted (rest init : list A) :
  Forall P rest -> Forall P init -> StronglySorted kle init ->
  StronglySorted kle (fold_left (binary_insert lt) rest init).
Proof.
  revert init; induction rest as [|x rest IH]; intros init Hr Hi Hs;
    cbn [fold_left]; [exact Hs|].
  inversion Hr as [|? ? Hx Hr']; subst.
  destruct (binary_insert_sorted init x Hx Hi Hs) as [Hs' Hi'].
  now apply IH.
Qed.

(** On values that can all be compared, the sort returns them in
    non-decreasing order. *)
Lemma py_sorted_sorted (l : list A) :
  Forall P l -> StronglySorted kle (py_sorted lt l).
Proof.
  intros Hall. destruct l as [|x [|y l]].
  - constructor.
  - constructor; constructor.
  - unfold py_sorted. set (L := x :: y :: l) in *.
    destruct (count_run lt L) as [n d] eqn:Hc.
    assert (Hf : Forall P (firstn n L)).
    { rewrite Forall_forall in *. intros z Hz. apply Hall.
      rewrite <- (firstn_skipn n L). apply in_or_app. now left. }
    assert (Hk : Forall P (skipn n L)).
    { rewrite Forall_forall in *. intros z Hz. apply Hall.
      rewrite <- (firstn_skipn n L). apply in_or_app. now right. }
    apply fold_binary_insert_sorted; [exact Hk| |].
    + destruct d; [|exact Hf]. rewrite Forall_forall in *.
      intros z Hz. apply Hf. now apply in_rev.
    + now apply leading_run_sorted.
Qed.
End SortOrders.

Lemma priority_lt_key (x y : option Z) :
  x <> None -> y <> None ->
  priority_lt x y = (priority_key x <? priority_key y)%Z.
Proof. destruct x, y; intros Hx Hy; try congruence. reflexivity. Qed.

Lemma flat_map_some_sorted (l : list (option Z)) :
  StronglySorted (fun x y => (priority_key x <= priority_key y)%Z) l ->
  NoDup l -> Forall (fun x => x <> None) l ->
  StronglySorted Z.lt
    (flat_map (fun priority =>
                 match priority with
                 | Some q => if (q =? 0)%Z then [] else [q]
                 | None => []
                 end) l).
Proof.
  induction 1 as [|x l Hs IH Hall]; intros Hn Hp; cbn [flat_map];
    [constructor|].
  inversion Hn as [|? ? Hx Hn']; subst. inversion Hp as [|? ? Hx' Hp']; subst.
  specialize (IH Hn' Hp'). destruct x as [q|]; [|congruence].
  destruct (q =? 0)%Z; [exact IH|]. cbn [app]. constructor; [exact IH|].
  apply Forall_forall. intros p Hin. apply flat_map_some_in in Hin as [_ Hin].
  rewrite Forall_forall in Hall. pose proof (Hall _ Hin) as Hle. cbn in Hle.
  assert (p <> q) by (intros ->; contradiction). lia.
Qed.

(** X17: when no row lacks its priority class, the lines of the priority
    table come in strictly ascending order of the class code. *)
Theorem zones_ascending_without_missing (df : DataFrame) :
  (forall r, In r df -> priority_class r <> None) ->
  StronglySorted Z.lt (zone_priorities df).
Proof.
  intros Hall. unfold zone_priorities.
  destruct (unique_spec (map priority_class df)) as [Hn Hi].
  pose proof (py_sorted_perm priority_lt (unique (map priority_class df))) as Hp.
  assert (HP : Forall (fun x => x <> None) (unique (map priority_class df))).
  { apply Forall_forall. intros x Hx. apply Hi in Hx.
    apply in_map_iff in Hx as [r [<- Hr]]. now apply Hall. }
  apply flat_map_some_sorted.
  - apply (py_sorted_sorted priority_lt priority_key (fun x => x <> None)
                            priority_lt_key _ HP).
  - apply (Permutation_NoDup (Permutation_sym Hp) Hn).
  - rewrite Forall_forall in *. intros x Hx. apply HP.
    now apply (Permutation_in _ Hp).
Qed.

Lemma zones_ascending_without_missing_witness :
  StronglySorted Z.lt (zone_priorities frame_separated).
Proof.
  apply zones_ascending_without_missing.
  intros r [<-|[<-|[<-|[<-|[]]]]]; discriminate.
Defined.

(** ** Running on data that was already filled *)

(** X18: validating the filled frame again gives the same report: the same
    AUC, label, threshold table, optimal threshold, component table,
    priority table, summary and verdict; only the loader's line can
    differ. *)
Theorem run_on_filled_frame (csv : DataFrame) (rep : report) :
  run csv = Ok rep ->
  run (impute csv)
  = Ok (mkReport (impute_report (impute csv)) (r_auc rep)
                 (r_interpretation rep) (r_sweep rep)
                 (r_optimal_threshold rep) (r_components rep) (r_zones rep)
                 (r_summary rep) (r_verdict rep)).
Proof.
  intros H. unfold run in *. rewrite impute_fixed_point.
  destruct (roc_auc_score (outcomes (impute csv)) (get_col col_ewi (impute csv)))
    as [a|]; [|discriminate]. cbn [bind] in *.
  destruct (sweep (impute csv)) as [table|]; [|discriminate]. cbn [bind] in *.
  destruct (find_optimal_threshold (impute csv)) as [th|]; [|discriminate].
  cbn [bind] in *.
  destruct (component_analysis (impute csv)) as [comps|]; [|discriminate].
  cbn [bind] in *.
  destruct (summarize (impute csv) th) as [s|]; [|discriminate].
  cbn [bind] in *. injection H as <-. reflexivity.
Qed.

Lemma run_on_filled_frame_witness :
  exists rep, run frame_separated = Ok rep /\
              exists rep', run (impute frame_separated) = Ok rep' /\
                           r_verdict rep' = r_verdict rep.
Proof.
  assert (E : exists rep, run frame_separated = Ok rep).
  { eexists. vm_compute. reflexivity. }
  destruct E as [rep E]. exists rep. split; [exact E|].
  eexists. split; [exact (run_on_filled_frame frame_separated rep E)|].
  reflexivity.
Defined.

(** ** The component table of a completed run *)

Lemma mean_skipna_complete (l : list (option Q)) :
  l <> [] -> forallb notna l = true -> exists q, mean_skipna l = Some q.
Proof.
  intros Hne Hall. destruct (mean_skipna l) as [q|] eqn:E; [now exists q|].
  apply mean_skipna_none in E. destruct l as [|x l]; [congruence|].
  cbn [forallb existsb] in *. apply andb_true_iff in Hall as [Hx _].
  rewrite Hx in E. discriminate.
Qed.

Lemma forallb_filter_rows (c : column) (f : row -> bool) (df : DataFrame) :
  forallb notna (get_col c df) = true ->
  forallb notna (get_col c (filter f df)) = true.
Proof.
  unfold get_col. rewrite !forallb_forall. intros H x Hx.
  apply in_map_iff in Hx as [r [<- Hr]]. apply filter_In in Hr as [Hr _].
  apply H. apply in_map_iff. now exists r.
Qed.

(** X19: in a completed run nothing in the component table is undefined:
    there are five lines, and the AUC and both class means of each are
    rationals; the overall AUC is a rational too. *)
Theorem component_table_defined (csv : DataFrame) (rep : report) :
  run csv = Ok rep ->
  (exists a, r_auc rep = Num a) /\
  map c_name (r_components rep) = map fst components /\
  Forall (fun line => exists a mc mn,
            c_auc line = Num a /\ c_mean_conflict line = Num mc /\
            c_mean_no_conflict line = Num mn)
         (r_components rep).
Proof.
  intros Hrun.
  assert (Hdone : completes csv = true)
    by (apply run_completes_iff_helper; now exists rep).
  apply run_ok_inv in Hrun. cbv zeta in Hrun.
  destruct Hrun as [Hauc [_ [_ [Hcomp _]]]]. set (df := impute csv) in *.
  destruct (roc_auc_score_ok_inv _ _ _ Hauc) as [Hb [vs Hvs]].
  assert (Hlen : forall c, length (get_col c df) = length (outcomes df))
    by (intros c; unfold get_col, outcomes; now rewrite !length_map).
  split.
  { destruct (roc_auc_score_ok _ _ (Hlen col_ewi) Hb) as [q Hq].
    - apply all_present_complete. exists vs. exact (proj1 (check_array_ok _ _ Hvs)).
    - exists q. congruence. }
  apply mapM_Forall2 in Hcomp.
  assert (Hcols : forall c, In c evaluated_columns ->
                            forallb notna (get_col c df) = true).
  { unfold completes in Hdone. apply andb_true_iff in Hdone as [_ Hdone].
    rewrite forallb_forall in Hdone. intros c Hc. unfold df.
    rewrite (component_column_kept csv c Hc). now apply Hdone. }
  assert (Hy : exists r, In r df /\ conflict_occurred r = true).
  { unfold both_classes, outcomes in Hb. apply andb_true_iff in Hb as [H _].
    apply existsb_exists in H as [b [Hin ->]].
    apply in_map_iff in Hin as [r [Hr Hin]]. now exists r. }
  assert (Hn : exists r, In r df /\ conflict_occurred r = false).
  { unfold both_classes, outcomes in Hb. apply andb_true_iff in Hb as [_ H].
    apply existsb_exists in H as [b [Hin Hbn]]. destruct b; [discriminate|].
    apply in_map_iff in Hin as [r [Hr Hin]]. now exists r. }
  split.
  - clear - Hcomp. induction Hcomp as [|[name c] line ncs lines H _ IH];
      [reflexivity|].
    cbn [map fst]. rewrite IH. f_equal.
    unfold evaluate_component in H. apply bind_ok_inv in H as [a [_ H]].
    now injection H as <-.
  - assert (Hin : forall nc, In nc components -> In (snd nc) evaluated_columns)
      by (intros nc H; unfold evaluated_columns; now apply in_map).
    revert Hin. induction Hcomp as [|[name c] line ncs lines H _ IH];
      intros Hin; constructor.
    + pose proof (Hcols c (Hin (name, c) (or_introl eq_refl))) as Hc.
      unfold evaluate_component in H. apply bind_ok_inv in H as [a [Ha H]].
      injection H as <-. cbn [c_auc c_mean_conflict c_mean_no_conflict].
      destruct (roc_auc_score_ok _ _ (Hlen c) Hb Hc) as [q Hq].
      destruct (mean_skipna_complete (get_col c (filter conflict_occurred df)))
        as [mc Hmc].
      { destruct Hy as [r [Hr Hyr]].
        assert (In r (filter conflict_occurred df)) by (apply filter_In; now split).
        unfold get_col. destruct (filter conflict_occurred df); [contradiction|discriminate]. }
      { now apply forallb_filter_rows. }
      destruct (mean_skipna_complete
                  (get_col c (filter (fun r => negb (conflict_occurred r)) df)))
        as [mn Hmn].
      { destruct Hn as [r [Hr Hnr]].
        assert (In r (filter (fun r => negb (conflict_occurred r)) df))
          by (apply filter_In; split; [exact Hr|now rewrite Hnr]).
        unfold get_col.
        destruct (filter (fun r => negb (conflict_occurred r)) df);
          [contradiction|discriminate]. }
      { now apply forallb_filter_rows. }
      exists q, mc, mn. rewrite Hmc, Hmn. split; [congruence|]. now split.
    + apply IH. intros nc Hnc. apply Hin. now right.
Qed.

Lemma component_table_defined_witness :
  exists rep, run frame_separated = Ok rep /\ exists a, r_auc rep = Num a.
Proof.
  assert (E : exists rep, run frame_separated = Ok rep).
  { eexists. vm_compute. reflexivity. }
  destruct E as [rep E]. exists rep. split; [exact E|].
  exact (proj1 (component_table_defined frame_separated rep E)).
Defined.
